(** * MemoryBackend of the MQTT broker: a shallow embedding of backend.go

    The development models [MemoryBackend] (backend.go) together with the
    part of the Go heap its methods touch: the session objects reached
    through pointers, the per-client [Context] stores (helpers.go), the
    calls made on the [Client] interface and the goroutines spawned by
    [Setup].  Every method is a function on that world; the mutex
    [sessionsMutex] is rendered by running each method as one atomic step. *)

From Stdlib.Strings Require Import Byte Ascii String.
From stdpp Require Import base list strings gmap fin_maps.

Local Open Scope string_scope.
Local Open Scope list_scope.
Local Open Scope nat_scope.

(** ** Data model *)

(** A value implementing the [Client] interface is identified by its
    identity; a pointer to a MemorySession is an address into the heap of
    sessions. *)
Abbreviation Client := nat (only parsing).
Abbreviation addr := nat (only parsing).

#[global] Instance byte_eq_dec : EqDecision byte.
Proof.
  intros x y. destruct (Byte.eqb x y) eqn:E.
  - left. by apply Byte.byte_dec_bl.
  - right. intros ->. by rewrite Byte.byte_dec_lb in E.
Defined.

(** packet.Message *)
Record Message := mkMessage {
  Topic : string;
  Payload : list byte;
  QOS : N;
  Retain : bool
}.

#[global] Instance Message_eq_dec : EqDecision Message.
Proof. solve_decision. Defined.

(** packet.Subscription *)
Record Subscription := mkSubscription {
  sub_Topic : string;
  sub_QOS : N
}.

#[global] Instance Subscription_eq_dec : EqDecision Subscription.
Proof. solve_decision. Defined.

(** Go's [interface{}]: the dynamically typed values kept in a [Context]
    store and in the nodes of a [tools.Tree]. *)
Inductive iface :=
  | INil
  | IBool (b : bool)
  | IString (s : string)
  | IClient (c : Client)
  | ISession (a : addr)
  | IMessage (m : Message).

#[global] Instance iface_eq_dec : EqDecision iface.
Proof. solve_decision. Defined.

(** Type assertions of an interface value to bool, Client, pointer to
    MemorySession and pointer to packet.Message: [None] is the [ok = false]
    outcome. *)
Definition as_bool (v : iface) : option bool :=
  match v with IBool b => Some b | _ => None end.
Definition as_client (v : iface) : option Client :=
  match v with IClient c => Some c | _ => None end.
Definition as_session (v : iface) : option addr :=
  match v with ISession a => Some a | _ => None end.
Definition as_message (v : iface) : option Message :=
  match v with IMessage m => Some m | _ => None end.

(** Go's [error]; [None] is [nil]. *)
Abbreviation error := (option string) (only parsing).

(** ** The topic tree *)

Module Tree.

(** Modelled from the spec: tools.Tree, the type of the fields queue,
    retained and offlineQueue of MemoryBackend, which comes from the package
    gomqtt/tools and is not part of the sources.  The spec (3, 4.1, 6)
    describes a tree of topic levels whose nodes hold sets of opaque values.
    The model keeps the content of the tree: the set of (filter, value)
    pairs, in insertion order, the filter identifying the node. *)
Abbreviation t := (list (string * iface)) (only parsing).

(** Modelled from the spec: tools.NewTree, the empty tree. *)
Definition NewTree : t := [].

(** Modelled from the spec: the levels of a topic or filter, separated by
    "/" (3, 6), as [strings.Split(s, "/")] gives them. *)
Fixpoint levels (s : string) : list string :=
  match s with
  | EmptyString => [EmptyString]
  | String c r =>
      if Ascii.eqb c "/"%char then EmptyString :: levels r
      else match levels r with
           | [] => [String c EmptyString]
           | l :: ls => String c l :: ls
           end
  end.

(** Modelled from the spec: the matching of a filter against a topic (6):
    [+] matches exactly one non-empty level, [#] is the final level of
    a filter and matches zero or more trailing levels, any other level
    matches itself. *)
Fixpoint matches (flt topic : list string) : bool :=
  match flt, topic with
  | [], [] => true
  | f :: fs, _ =>
      if String.eqb f "#" then bool_decide (fs = [])
      else match topic with
           | [] => false
           | l :: ls =>
               (if String.eqb f "+" then negb (String.eqb l "")
                else String.eqb f l) && matches fs ls
           end
  | [], _ :: _ => false
  end.

(** Modelled from the spec: the matching of 6 on the "/"-separated
    strings. *)
Definition topic_matches (flt topic : string) : bool :=
  matches (levels flt) (levels topic).

(** Modelled from the spec: Tree.Add(filter, v) inserts [v] at the node of
    the filter; re-adding is idempotent (4.1). *)
Definition Add (flt : string) (v : iface) (tr : t) : t :=
  if decide ((flt, v) ∈ tr) then tr else tr ++ [(flt, v)].

(** Modelled from the spec: Tree.Remove(filter, v) removes [v] from the
    node of the filter (3). *)
Definition Remove (flt : string) (v : iface) (tr : t) : t :=
  filter (λ e, e ≠ (flt, v)) tr.

(** Modelled from the spec: Tree.Clear(v) removes [v] from every node
    (3, 4.1). *)
Definition Clear (v : iface) (tr : t) : t :=
  filter (λ e, e.2 ≠ v) tr.

(** Modelled from the spec: Tree.Set(topic, v), the single-value slot used
    for retained messages (3): [v] replaces what the node held. *)
Definition Set_ (topic : string) (v : iface) (tr : t) : t :=
  filter (λ e, e.1 ≠ topic) tr ++ [(topic, v)].

(** Modelled from the spec: Tree.Empty(topic) empties the node (3). *)
Definition Empty_ (topic : string) (tr : t) : t :=
  filter (λ e, e.1 ≠ topic) tr.

(** Modelled from the spec: the values stored at exactly the node
    [topic]; an observation of the tree used in the statements. *)
Definition Get (topic : string) (tr : t) : list iface :=
  (filter (λ e, e.1 = topic) tr).*2.

(** Modelled from the spec: Tree.Match(topic) returns the values stored
    under the filters that match the concrete [topic] (3, 4.1), one per
    matching (filter, value) pair. *)
Definition Match (topic : string) (tr : t) : list iface :=
  (filter (λ e, topic_matches e.1 topic = true) tr).*2.

(** Modelled from the spec: Tree.Search(filter) returns the values stored
    under the concrete topics that the query filter matches (3, 4.1). *)
Definition Search (flt : string) (tr : t) : list iface :=
  (filter (λ e, topic_matches flt e.1 = true) tr).*2.

End Tree.


(** ** Sessions *)

(** Modelled from the spec: a published packet kept by a session, with its
    packet id (3). *)
Record Packet := mkPacket {
  pkt_ID : N;
  pkt_Message : Message
}.

(** Modelled from the spec: struct MemorySession, whose declaration is not
    part of the sources.  The field [currentClient] is the one backend.go
    reads and writes; the other fields follow the data model of the spec (3):
    the subscriptions as a mapping from filter to granted QoS, the in-flight
    outgoing and incoming packets, the packet id counter and the FIFO of
    missed messages. *)
Record MemorySession := mkMemorySession {
  subscriptions : gmap string N;
  outgoing : list Packet;
  incoming : list Packet;
  packetIdCounter : N;
  missedQueue : list Message;
  currentClient : option Client
}.

Module Session.

(** Modelled from the spec: NewMemorySession, an empty session owned by no
    client; packet id 0 is reserved, so the counter starts at 1. *)
Definition NewMemorySession : MemorySession :=
  mkMemorySession ∅ [] [] 1%N [] None.

(** The assignment [sess.currentClient = c] of backend.go. *)
Definition set_currentClient (c : option Client) (s : MemorySession)
  : MemorySession :=
  mkMemorySession (subscriptions s) (outgoing s) (incoming s)
                  (packetIdCounter s) (missedQueue s) c.

(** Modelled from the spec: Reset (4.2) clears all fields of the session:
    the subscriptions, the packets of both directions, the id counter, the
    missed messages and the current client, which the data model (3) lists
    among the fields. *)
Definition Reset (s : MemorySession) : MemorySession :=
  mkMemorySession ∅ [] [] 1%N [] None.

(** Modelled from the spec: SaveSubscription (4.2) records the granted
    QoS under the filter. *)
Definition SaveSubscription (sub : Subscription) (s : MemorySession)
  : MemorySession :=
  mkMemorySession (<[sub_Topic sub := sub_QOS sub]> (subscriptions s))
                  (outgoing s) (incoming s) (packetIdCounter s)
                  (missedQueue s) (currentClient s).

(** Modelled from the spec: DeleteSubscription (4.2). *)
Definition DeleteSubscription (flt : string) (s : MemorySession)
  : MemorySession :=
  mkMemorySession (delete flt (subscriptions s))
                  (outgoing s) (incoming s) (packetIdCounter s)
                  (missedQueue s) (currentClient s).

(** Modelled from the spec: AllSubscriptions (4.2); the in-memory session
    never fails. *)
Definition AllSubscriptions (s : MemorySession)
  : list Subscription * error :=
  ((λ e, mkSubscription e.1 e.2) <$> map_to_list (subscriptions s), None).

(** Modelled from the spec: queue(msg) appends to the missed messages. *)
Definition queue (msg : Message) (s : MemorySession) : MemorySession :=
  mkMemorySession (subscriptions s) (outgoing s) (incoming s)
                  (packetIdCounter s) (missedQueue s ++ [msg])
                  (currentClient s).

(** Modelled from the spec: missed() drains the missed messages and
    returns them. *)
Definition missed (s : MemorySession) : list Message * MemorySession :=
  (missedQueue s,
   mkMemorySession (subscriptions s) (outgoing s) (incoming s)
                   (packetIdCounter s) [] (currentClient s)).

End Session.

(** ** The backend and the world around it *)

(** struct MemoryBackend; [Logins = None] is the nil map. *)
Record MemoryBackend := mkMemoryBackend {
  Logins : option (gmap string string);
  queue : list (string * iface);
  retained : list (string * iface);
  offlineQueue : list (string * iface);
  sessions : gmap string nat
}.

(** A call received by a value implementing the [Client] interface. *)
Inductive call :=
  | CallPublish (c : Client) (msg : Message)
  | CallClose (c : Client) (clean : bool).

#[global] Instance call_eq_dec : EqDecision call.
Proof. solve_decision. Defined.

(** The backend, the session objects by address, the [Context] store of
    every client (helpers.go), the calls made on clients so far (oldest
    first) and the goroutines spawned and not yet run, each the closure
    (client, sess) of the replay loop in Setup. *)
Record World := mkWorld {
  backend : MemoryBackend;
  heap : list MemorySession;
  contexts : gmap nat (gmap string iface);
  calls : list call;
  goroutines : list (nat * nat)
}.

(** NewMemoryBackend *)
Definition NewMemoryBackend : MemoryBackend :=
  mkMemoryBackend None Tree.NewTree Tree.NewTree Tree.NewTree ∅.

(** The world of a new backend: no session, no context, no call made, no
    goroutine. *)
Definition init : World := mkWorld NewMemoryBackend [] ∅ [] [].

(** Field updates of the world. *)

Definition set_queue (q : list (string * iface)) (w : World) : World :=
  let m := backend w in
  mkWorld (mkMemoryBackend (Logins m) q (retained m) (offlineQueue m)
                           (sessions m))
          (heap w) (contexts w) (calls w) (goroutines w).

Definition set_retained (r : list (string * iface)) (w : World) : World :=
  let m := backend w in
  mkWorld (mkMemoryBackend (Logins m) (queue m) r (offlineQueue m)
                           (sessions m))
          (heap w) (contexts w) (calls w) (goroutines w).

Definition set_offlineQueue (o : list (string * iface)) (w : World) : World :=
  let m := backend w in
  mkWorld (mkMemoryBackend (Logins m) (queue m) (retained m) o (sessions m))
          (heap w) (contexts w) (calls w) (goroutines w).

Definition set_sessions (s : gmap string nat) (w : World) : World :=
  let m := backend w in
  mkWorld (mkMemoryBackend (Logins m) (queue m) (retained m)
                           (offlineQueue m) s)
          (heap w) (contexts w) (calls w) (goroutines w).

Definition set_heap (h : list MemorySession) (w : World) : World :=
  mkWorld (backend w) h (contexts w) (calls w) (goroutines w).

Definition set_contexts (x : gmap nat (gmap string iface)) (w : World)
  : World :=
  mkWorld (backend w) (heap w) x (calls w) (goroutines w).

Definition set_calls (l : list call) (w : World) : World :=
  mkWorld (backend w) (heap w) (contexts w) l (goroutines w).

Definition set_goroutines (g : list (nat * nat)) (w : World) : World :=
  mkWorld (backend w) (heap w) (contexts w) (calls w) g.

(** A method call through a session pointer: the object at [a] is
    replaced by [f] of itself. *)
Definition on_session (a : addr) (f : MemorySession → MemorySession)
    (w : World) : World :=
  set_heap (alter f a (heap w)) w.

(** [new(MemorySession)]: the fresh object gets the next address. *)
Definition alloc (s : MemorySession) (w : World) : addr * World :=
  (length (heap w), set_heap (heap w ++ [s]) w).

(** helpers.go, [Context.Get]: a missing key yields the nil interface. *)
Definition ctx_Get (c : Client) (key : string) (w : World) : iface :=
  default INil (default ∅ (contexts w !! c) !! key).

(** helpers.go, [Context.Set] *)
Definition ctx_Set (c : Client) (key : string) (v : iface) (w : World)
  : World :=
  set_contexts (<[c := <[key := v]> (default ∅ (contexts w !! c))]>
                  (contexts w)) w.

(** [client.Publish(msg)] and [client.Close(clean)] are calls out of the
    backend; the world records them. *)
Definition client_Publish (c : Client) (msg : Message) (w : World) : World :=
  set_calls (calls w ++ [CallPublish c msg]) w.

Definition client_Close (c : Client) (clean : bool) (w : World) : World :=
  set_calls (calls w ++ [CallClose c clean]) w.

(** ** The methods of MemoryBackend (backend.go) *)

(** Authenticate *)
Definition Authenticate (m : MemoryBackend) (client : Client)
    (user password : string) : bool * error :=
  match Logins m with
  | None => (true, None)
  | Some logins =>
      match logins !! user with
      | Some pw => if decide (pw = password) then (true, None)
                   else (false, None)
      | None => (false, None)
      end
  end.

(** The goroutine body of Setup: [for _, msg := range sess.missed()
    { client.Publish(msg) }]. *)
Definition replay (client : Client) (sess : addr) (w : World) : World :=
  match heap w !! sess with
  | Some s =>
      let '(msgs, s') := Session.missed s in
      foldl (λ w msg, client_Publish client msg w)
            (set_heap (<[sess := s']> (heap w)) w) msgs
  | None => w
  end.

(** The [go] statement: the closure is queued, it runs later. *)
Definition go_replay (client : Client) (sess : addr) (w : World) : World :=
  set_goroutines (goroutines w ++ [(client, sess)]) w.

(** [sess.currentClient] read through the pointer. *)
Definition currentClient_at (sess : addr) (w : World) : option Client :=
  heap w !! sess ≫= currentClient.

(** Setup *)
Definition Setup (client : Client) (id : string) (clean : bool) (w : World)
  : (addr * bool * error) * World :=
  let w := ctx_Set client "clean" (IBool clean) w in
  if decide (String.length id = 0) then
    let '(sess, w) := alloc Session.NewMemorySession w in
    let w := ctx_Set client "session" (ISession sess) w in
    ((sess, false, None), w)
  else
    match sessions (backend w) !! id with
    | Some sess =>
        let w := match currentClient_at sess w with
                 | Some old => client_Close old true w
                 | None => w
                 end in
        let w := on_session sess (Session.set_currentClient (Some client)) w in
        let w := if clean then on_session sess Session.Reset w else w in
        let w := set_offlineQueue
                   (Tree.Clear (ISession sess) (offlineQueue (backend w))) w in
        let w := go_replay client sess w in
        let w := ctx_Set client "session" (ISession sess) w in
        ((sess, true, None), w)
    | None =>
        let '(sess, w) :=
          alloc (Session.set_currentClient (Some client)
                   Session.NewMemorySession) w in
        let w := set_sessions (<[id := sess]> (sessions (backend w))) w in
        let w := ctx_Set client "session" (ISession sess) w in
        ((sess, false, None), w)
    end.

(** Subscribe *)
Definition Subscribe (client : Client) (topic : string) (w : World)
  : (list Message * error) * World :=
  let w := set_queue (Tree.Add topic (IClient client) (queue (backend w))) w in
  let values := Tree.Search topic (retained (backend w)) in
  let msgs := omap as_message values in
  ((msgs, None), w).

(** Unsubscribe *)
Definition Unsubscribe (client : Client) (topic : string) (w : World)
  : error * World :=
  let w :=
    set_queue (Tree.Remove topic (IClient client) (queue (backend w))) w in
  (None, w).

(** Publish *)
Definition Publish (client : Client) (msg : Message) (w : World)
  : error * World :=
  let w :=
    if Retain msg then
      if decide (0 < length (Payload msg)) then
        set_retained
          (Tree.Set_ (Topic msg) (IMessage msg) (retained (backend w))) w
      else
        set_retained (Tree.Empty_ (Topic msg) (retained (backend w))) w
    else w in
  let w :=
    foldl (λ w v, match as_client v with
                  | Some client => client_Publish client msg w
                  | None => w
                  end)
          w (Tree.Match (Topic msg) (queue (backend w))) in
  let w :=
    foldl (λ w v, match as_session v with
                  | Some session => on_session session (Session.queue msg) w
                  | None => w
                  end)
          w (Tree.Match (Topic msg) (offlineQueue (backend w))) in
  (None, w).

(** [session.AllSubscriptions()] through the pointer. *)
Definition AllSubscriptions_at (sess : addr) (w : World)
  : list Subscription * error :=
  match heap w !! sess with
  | Some s => Session.AllSubscriptions s
  | None => ([], None)
  end.

(** Terminate *)
Definition Terminate (client : Client) (w : World) : error * World :=
  let w := set_queue (Tree.Clear (IClient client) (queue (backend w))) w in
  match as_session (ctx_Get client "session" w) with
  | Some session =>
      let w := on_session session (Session.set_currentClient None) w in
      match as_bool (ctx_Get client "clean" w) with
      | Some true => (None, on_session session Session.Reset w)
      | _ =>
          let '(subs, err) := AllSubscriptions_at session w in
          match err with
          | Some e => (Some e, w)
          | None =>
              (None,
               foldl (λ w sub,
                        if (1 <=? sub_QOS sub)%N then
                          set_offlineQueue
                            (Tree.Add (sub_Topic sub) (ISession session)
                                      (offlineQueue (backend w))) w
                        else w)
                     w subs)
          end
      end
  | None => (None, w)
  end.

(** ** Runs *)

(** Modelled from the spec: the steps of a run.  A step is a call of one
    of the five state-changing methods of the backend, the scheduler running
    the pending goroutine number [i], or the client that owns a session
    changing its subscriptions: the Remote Client (4.4), which is not part
    of the sources, saves the subscription in the session bound to it on
    SUBSCRIBE and deletes it on UNSUBSCRIBE, next to its calls of
    Backend.Subscribe and Backend.Unsubscribe. *)
Inductive op :=
  | OpSetup (c : Client) (id : string) (clean : bool)
  | OpSubscribe (c : Client) (topic : string)
  | OpUnsubscribe (c : Client) (topic : string)
  | OpPublish (c : Client) (msg : Message)
  | OpTerminate (c : Client)
  | OpGo (i : nat)
  | OpSaveSubscription (c : Client) (sub : Subscription)
  | OpDeleteSubscription (c : Client) (flt : string).

(** The calls of the five methods of the Backend interface that change
    the state. *)
Definition is_backend_call (o : op) : bool :=
  match o with
  | OpSetup _ _ _ | OpSubscribe _ _ | OpUnsubscribe _ _
  | OpPublish _ _ | OpTerminate _ => true
  | _ => false
  end.

(** The scheduler runs the pending goroutine number [i], if there is
    one. *)
Definition run_goroutine (i : nat) (w : World) : World :=
  match goroutines w !! i with
  | Some (c, a) => replay c a (set_goroutines (delete i (goroutines w)) w)
  | None => w
  end.

(** A method call of a client on the session bound to it. *)
Definition on_bound_session (c : Client) (f : MemorySession → MemorySession)
    (w : World) : World :=
  match as_session (ctx_Get c "session" w) with
  | Some a => on_session a f w
  | None => w
  end.

(** The world after one step. *)
Definition step (w : World) (o : op) : World :=
  match o with
  | OpSetup c id clean => (Setup c id clean w).2
  | OpSubscribe c topic => (Subscribe c topic w).2
  | OpUnsubscribe c topic => (Unsubscribe c topic w).2
  | OpPublish c msg => (Publish c msg w).2
  | OpTerminate c => (Terminate c w).2
  | OpGo i => run_goroutine i w
  | OpSaveSubscription c sub =>
      on_bound_session c (Session.SaveSubscription sub) w
  | OpDeleteSubscription c flt =>
      on_bound_session c (Session.DeleteSubscription flt) w
  end.

(** The world after a run, oldest step first. *)
Definition run (tr : list op) (w : World) : World := foldl step w tr.

(** ** Observations used in the statements *)

(** The messages a client has been sent so far: the [in] slice of the
    fakeClient of helpers.go. *)
Definition inbox (c : Client) (w : World) : list Message :=
  omap (λ e, match e with
             | CallPublish c' msg => if decide (c' = c) then Some msg else None
             | _ => None
             end) (calls w).

(** [n] messages [msg] appended to the missed messages of a session. *)
Definition queued (msg : Message) (n : nat) (s : MemorySession)
  : MemorySession :=
  Nat.iter n (Session.queue msg) s.

(** How often a session occurs among the values of a match. *)
Definition occurrences (a : addr) (vs : list iface) : nat :=
  length (filter (λ b, b = a) (omap as_session vs)).

(** A retained message is stored for the topic. *)
Definition has_retained (topic : string) (w : World) : Prop :=
  ∃ msg, (topic, IMessage msg) ∈ retained (backend w).

(** The messages published in a run, oldest first. *)
Definition published (tr : list op) : list Message :=
  omap (λ o, match o with OpPublish _ msg => Some msg | _ => None end) tr.

(** The last message published on [topic] with Retain set. *)
Definition last_retained (topic : string) (msgs : list Message)
  : option Message :=
  last (filter (λ m, Retain m = true ∧ Topic m = topic) msgs).

(** The session is registered in the offline queue, under some filter. *)
Definition offline (a : addr) (w : World) : Prop :=
  ∃ flt, (flt, ISession a) ∈ offlineQueue (backend w).

(** The clean flag of the latest Setup of client [c] in a run. *)
Definition last_Setup (c : Client) (tr : list op) : option bool :=
  last (omap (λ o, match o with
                   | OpSetup c' _ clean =>
                       if decide (c' = c) then Some clean else None
                   | _ => None
                   end) tr).

(** Every pointer kept in the session registry points into the heap. *)
Definition registry_live (w : World) : Prop :=
  map_Forall (λ _ a, a < length (heap w)) (sessions (backend w)).

(** The session bound to a client: [client.Context().Get("session")]
    asserted to a session pointer. *)
Definition bound_session (c : Client) (w : World) : option addr :=
  as_session (ctx_Get c "session" w).

(** The clean flag a client connected with: [client.Context().Get("clean")]
    asserted to bool. *)
Definition connected_clean (c : Client) (w : World) : option bool :=
  as_bool (ctx_Get c "clean" w).

(** The session holds a subscription with QoS 1 or 2. *)
Definition holds_offline_subscription (a : addr) (w : World) : Prop :=
  ∃ s flt q, heap w !! a = Some s
             ∧ subscriptions s !! flt = Some q ∧ (1 ≤ q)%N.

(** The entry of session [a] under the filter [flt] of the offline queue
    goes back to a Terminate in the run: the call of a client that had
    connected with clean = false, was bound to the session, and found the
    subscription to [flt] with QoS 1 or 2 in it. *)
Definition registered_by (tr : list op) (flt : string) (a : addr) : Prop :=
  ∃ pre c post s q,
    tr = pre ++ OpTerminate c :: post
    ∧ last_Setup c pre = Some false
    ∧ bound_session c (run pre init) = Some a
    ∧ heap (run pre init) !! a = Some s
    ∧ subscriptions s !! flt = Some q ∧ (1 ≤ q)%N.

(** The stored state of a session survives from [s] to [s']: same
    subscriptions, packets and id counter, and no missed message lost. *)
Definition state_kept (s s' : MemorySession) : Prop :=
  subscriptions s' = subscriptions s
  ∧ outgoing s' = outgoing s
  ∧ incoming s' = incoming s
  ∧ packetIdCounter s' = packetIdCounter s
  ∧ missedQueue s `prefix_of` missedQueue s'.

(** Nothing is stored in the session. *)
Definition state_empty (s : MemorySession) : Prop :=
  subscriptions s = ∅ ∧ outgoing s = [] ∧ incoming s = []
  ∧ missedQueue s = [].

(** The reading of the lifecycle in which the stored state of a session is
    lost in a call of Setup with clean = true and in no other call of the
    backend. *)
Definition destroyed_only_by_clean_Setup : Prop :=
  ∀ tr o a s s',
    is_backend_call o = true →
    heap (run tr init) !! a = Some s →
    heap (step (run tr init) o) !! a = Some s' →
    ¬ state_kept s s' →
    ∃ c id, o = OpSetup c id true.

(** The reading of the membership invariant in which every session of the
    offline queue holds, in the state at hand, a subscription with QoS 1
    or 2. *)
Definition offline_sessions_subscribed : Prop :=
  ∀ tr a, offline a (run tr init) →
          holds_offline_subscription a (run tr init).

(** A takeover of a client id: client 1 connects as "a" with a persistent
    session and subscribes to "t" with QoS 1; client 2 connects as "a",
    which closes client 1; the Terminate of client 1 follows; client 2
    unsubscribes from "t". *)
Definition takeover_run : list op :=
  [ OpSetup 1 "a" false;
    OpSaveSubscription 1 (mkSubscription "t" 1);
    OpSubscribe 1 "t";
    OpSetup 2 "a" false;
    OpTerminate 1;
    OpDeleteSubscription 2 "t";
    OpUnsubscribe 2 "t" ].

(** A persistent session going offline: client 1 connects as "a" with
    clean = false, subscribes to "t" with QoS 1 and to "u" with QoS 0, and
    disconnects. *)
Definition offline_run : list op :=
  [ OpSetup 1 "a" false;
    OpSaveSubscription 1 (mkSubscription "t" 1);
    OpSubscribe 1 "t";
    OpSaveSubscription 1 (mkSubscription "u" 0);
    OpSubscribe 1 "u";
    OpTerminate 1 ].

(** A clean session: client 1 connects as "a" with clean = true and
    subscribes to "t" with QoS 1. *)
Definition clean_run : list op :=
  [ OpSetup 1 "a" true;
    OpSaveSubscription 1 (mkSubscription "t" 1);
    OpSubscribe 1 "t" ].

(** Client 1 is connected as "a" with a persistent session. *)
Definition connected_world : World := run [OpSetup 1 "a" false] init.

(** ** helpers.go: state, Context and fakeClient *)

(** struct state; its mutex is rendered by running each method as one
    step. *)
Record state := mkState { current : byte }.

Module State.

(** newState *)
Definition newState (init : byte) : state := mkState init.

(** state.set *)
Definition set (st : byte) (s : state) : state := mkState st.

(** state.get *)
Definition get (s : state) : byte := current s.

End State.

Module Ctx.

(** NewContext: the store of a new Context is the empty map. *)
Definition NewContext : gmap string iface := ∅.

(** Context.Set: [c.store[key] = value]. *)
Definition Set_ (key : string) (value : iface) (c : gmap string iface)
  : gmap string iface :=
  <[key := value]> c.

(** Context.Get: [c.store[key]], the nil interface for a missing key. *)
Definition Get (key : string) (c : gmap string iface) : iface :=
  default INil (c !! key).

(** A sequence of Set calls, oldest first. *)
Definition Sets (l : list (string * iface)) (c : gmap string iface)
  : gmap string iface :=
  foldl (λ c kv, Set_ kv.1 kv.2 c) c l.

(** The value of the latest Set of [key] in a sequence of Set calls. *)
Definition last_Set (key : string) (l : list (string * iface))
  : option iface :=
  last (filter (λ kv, kv.1 = key) l).*2.

End Ctx.

(** struct fakeClient: the messages received and the context. *)
Record fakeClient := mkFakeClient {
  fc_in : list Message;
  fc_ctx : gmap string iface
}.

Module FakeClient.

(** newFakeClient; the uuid, which the source takes from uuid.NewV1(), is
    an argument. *)
Definition newFakeClient (uuid : string) : fakeClient :=
  mkFakeClient [] (Ctx.Set_ "uuid" (IString uuid) Ctx.NewContext).

(** fakeClient.Publish appends the message and answers true. *)
Definition Publish (msg : Message) (c : fakeClient) : bool * fakeClient :=
  (true, mkFakeClient (fc_in c ++ [msg]) (fc_ctx c)).

(** fakeClient.Close does nothing. *)
Definition Close (clean : bool) (c : fakeClient) : fakeClient := c.

(** fakeClient.Context *)
Definition Context (c : fakeClient) : gmap string iface := fc_ctx c.

(** The fake client standing for client [c] receives a call made by the
    backend. *)
Definition receive (c : Client) (fc : fakeClient) (e : call) : fakeClient :=
  match e with
  | CallPublish c' msg => if decide (c' = c) then (Publish msg fc).2 else fc
  | CallClose c' clean => if decide (c' = c) then Close clean fc else fc
  end.

(** The fake client standing for client [c] after the calls of a world. *)
Definition after (c : Client) (fc : fakeClient) (w : World) : fakeClient :=
  foldl (receive c) fc (calls w).

End FakeClient.

(** ** The broker facade *)

(** time.Second, in nanoseconds. *)
Definition Second : Z := 1000000000.

(** struct Broker; [Logger = None] is the nil callback. *)
Record Broker := mkBroker {
  Backend : MemoryBackend;
  Logger : option (string → unit);
  ConnectTimeout : Z
}.

(** New *)
Definition New : Broker := mkBroker NewMemoryBackend None (10 * Second)%Z.

(** The world around the backend of a broker before any call. *)
Definition world_of (b : Broker) : World := mkWorld (Backend b) [] ∅ [] [].

(** ** Further observations *)

(** A run of Publish calls, oldest first, each with its publisher. *)
Definition publishes (l : list (Client * Message)) : list op :=
  (λ pm, OpPublish pm.1 pm.2) <$> l.

(** How often a client occurs among the values of a match. *)
Definition client_occurrences (c : Client) (vs : list iface) : nat :=
  length (filter (λ c', c' = c) (omap as_client vs)).

(** The registry gives no session to two ids. *)
Definition registry_injective (w : World) : Prop :=
  ∀ id1 id2 a, sessions (backend w) !! id1 = Some a →
               sessions (backend w) !! id2 = Some a → id1 = id2.

(** ** Lemmas on the topic tree *)

Example levels_ex : Tree.levels "foo/bar" = ["foo"; "bar"].
Proof. reflexivity. Qed.
Example match_plus : Tree.topic_matches "foo/+" "foo/bar" = true.
Proof. reflexivity. Qed.
Example match_hash : Tree.topic_matches "foo/#" "foo" = true.
Proof. reflexivity. Qed.
Example match_no : Tree.topic_matches "foo/+" "foo/bar/baz" = false.
Proof. reflexivity. Qed.

Section tree_lemmas.
Implicit Types (tr : list (string * iface)) (v : iface) (flt : string).

Lemma elem_of_Add tr flt v e :
  e ∈ Tree.Add flt v tr ↔ e ∈ tr ∨ e = (flt, v).
Proof.
  unfold Tree.Add. case_decide as Hin.
  - split; [by left | intros [?| ->]; done].
  - rewrite elem_of_app, list_elem_of_singleton. done.
Qed.

Lemma elem_of_Clear tr v e :
  e ∈ Tree.Clear v tr ↔ e ∈ tr ∧ e.2 ≠ v.
Proof. unfold Tree.Clear. rewrite list_elem_of_filter. tauto. Qed.

Lemma elem_of_Remove tr flt v e :
  e ∈ Tree.Remove flt v tr ↔ e ∈ tr ∧ e ≠ (flt, v).
Proof. unfold Tree.Remove. rewrite list_elem_of_filter. tauto. Qed.

Lemma elem_of_Set tr flt v e :
  e ∈ Tree.Set_ flt v tr ↔ (e ∈ tr ∧ e.1 ≠ flt) ∨ e = (flt, v).
Proof.
  unfold Tree.Set_.
  rewrite elem_of_app, list_elem_of_filter, list_elem_of_singleton. tauto.
Qed.

Lemma elem_of_Empty tr flt e :
  e ∈ Tree.Empty_ flt tr ↔ e ∈ tr ∧ e.1 ≠ flt.
Proof. unfold Tree.Empty_. rewrite list_elem_of_filter. tauto. Qed.

Lemma elem_of_Get tr flt v : v ∈ Tree.Get flt tr ↔ (flt, v) ∈ tr.
Proof.
  unfold Tree.Get. rewrite list_elem_of_fmap. split.
  - intros [[f' v'] [-> [Hf Hin]%list_elem_of_filter]]. simpl in *.
    by subst.
  - intros Hin. exists (flt, v). split; [done|].
    by apply list_elem_of_filter.
Qed.

End tree_lemmas.

(** ** The loops of Publish and Terminate *)

Lemma set_calls_id w : set_calls (calls w) w = w.
Proof. by destruct w. Qed.

Lemma set_heap_id w : set_heap (heap w) w = w.
Proof. by destruct w. Qed.

Lemma set_offlineQueue_id w : set_offlineQueue (offlineQueue (backend w)) w = w.
Proof. by destruct w as [[] ? ? ? ?]. Qed.

(** The first loop of Publish only calls [client.Publish], once for every
    client among the matched values, in their order. *)
Lemma publish_loop_clients msg vs w :
  foldl (λ w v, match as_client v with
                | Some client => client_Publish client msg w
                | None => w
                end) w vs
  = set_calls (calls w ++ ((λ c, CallPublish c msg) <$> omap as_client vs)) w.
Proof.
  revert w. induction vs as [|v vs IH]; intros w; simpl.
  - by rewrite app_nil_r, set_calls_id.
  - rewrite IH. destruct (as_client v) as [c|]; simpl; [|done].
    unfold client_Publish, set_calls. simpl. by rewrite <-app_assoc.
Qed.

(** The second loop of Publish only calls [session.queue], once for every
    session among the matched values. *)
Lemma publish_loop_sessions msg vs w :
  foldl (λ w v, match as_session v with
                | Some session => on_session session (Session.queue msg) w
                | None => w
                end) w vs
  = set_heap (foldl (λ h a, alter (Session.queue msg) a h) (heap w)
                    (omap as_session vs)) w.
Proof.
  revert w. induction vs as [|v vs IH]; intros w; simpl.
  - by rewrite set_heap_id.
  - rewrite IH. by destruct (as_session v).
Qed.

Lemma alter_loop_lookup (f : MemorySession → MemorySession)
    (l : list nat) (h : list MemorySession) (a : nat) :
  foldl (λ h b, alter f b h) h l !! a
  = Nat.iter (length (filter (λ b, b = a) l)) f <$> h !! a.
Proof.
  revert h. induction l as [|b l IH]; intros h; simpl.
  - by destruct (h !! a).
  - rewrite IH. rewrite filter_cons. case_decide as Hb; simpl.
    + subst b. rewrite list_lookup_alter_eq. destruct (h !! a); [|done].
      cbn [fmap option_fmap option_map length]. f_equal.
      symmetry. apply Nat.iter_succ_r.
    + by rewrite list_lookup_alter_ne.
Qed.

(** The loop of Terminate only adds the session to the offline queue,
    under the filters of the subscriptions with QoS 1 or 2. *)
Lemma terminate_loop session subs w :
  foldl (λ w sub,
           if (1 <=? sub_QOS sub)%N then
             set_offlineQueue
               (Tree.Add (sub_Topic sub) (ISession session)
                         (offlineQueue (backend w))) w
           else w) w subs
  = set_offlineQueue
      (foldl (λ o sub, if (1 <=? sub_QOS sub)%N
                       then Tree.Add (sub_Topic sub) (ISession session) o
                       else o)
             (offlineQueue (backend w)) subs) w.
Proof.
  revert w. induction subs as [|sub subs IH]; intros w; simpl.
  - by rewrite set_offlineQueue_id.
  - rewrite IH. by destruct (1 <=? sub_QOS sub)%N.
Qed.

Lemma terminate_loop_elem session subs o e :
  e ∈ foldl (λ o sub, if (1 <=? sub_QOS sub)%N
                      then Tree.Add (sub_Topic sub) (ISession session) o
                      else o) o subs
  ↔ e ∈ o ∨ ∃ sub, sub ∈ subs ∧ (1 ≤ sub_QOS sub)%N
                   ∧ e = (sub_Topic sub, ISession session).
Proof.
  revert o. induction subs as [|sub subs IH]; intros o; simpl.
  - split; [by left | intros [?|(? & []%elem_of_nil & _)]; done].
  - rewrite IH. destruct (1 <=? sub_QOS sub)%N eqn:Hq.
    + apply N.leb_le in Hq. rewrite elem_of_Add. split.
      * intros [[?| ->]|(s & ? & ? & ?)]; [by left| |].
        -- right. exists sub. split_and!; [left|done|done].
        -- right. exists s. split_and!; [by right|done|done].
      * intros [?|(s & [->|?]%elem_of_cons & ? & ->)].
        -- by left; left.
        -- by left; right.
        -- right. by exists s.
    + apply N.leb_gt in Hq. split.
      * intros [?|(s & ? & ? & ?)]; [by left|].
        right. exists s. split_and!; [by right|done|done].
      * intros [?|(s & [->|?]%elem_of_cons & ? & ->)]; [by left|lia|].
        right. by exists s.
Qed.

(** ** Authenticate *)

Lemma Authenticate_error m client user password :
  (Authenticate m client user password).2 = None.
Proof.
  unfold Authenticate. destruct (Logins m) as [logins|]; [|done].
  destruct (logins !! user) as [pw|]; [|done]. by case_decide.
Qed.

(** X19: Authenticate answers true when no Logins map is configured;
    with a Logins map it answers true exactly when the map has an entry for
    the user whose value equals the password, and false in every other
    case. *)
Theorem Authenticate_spec (m : MemoryBackend) (client : Client)
    (user password : string) :
  ((Authenticate m client user password).1 = true
   ↔ Logins m = None
     ∨ ∃ logins, Logins m = Some logins ∧ logins !! user = Some password)
  ∧ ((Authenticate m client user password).1 = false
     ↔ ∃ logins, Logins m = Some logins ∧ logins !! user ≠ Some password).
Proof.
  unfold Authenticate. destruct (Logins m) as [logins|]; simpl.
  - destruct (logins !! user) as [pw|] eqn:Hu; [case_decide as Hpw|]; simpl.
    + subst pw. split; split; try done.
      * intros _. right. by exists logins.
      * intros (l & [= <-] & Hne). by rewrite Hu in Hne.
    + split; split; try done.
      * intros [|(l & [= <-] & Hl)]; [done|]. rewrite Hu in Hl. congruence.
      * intros _. exists logins. rewrite Hu. split; [done|congruence].
    + split; split; try done.
      * intros [|(l & [= <-] & Hl)]; [done|]. by rewrite Hu in Hl.
      * intros _. exists logins. by rewrite Hu.
  - split; split; try done.
    + intros _. by left.
    + by intros (l & ? & _).
Qed.

(** ** Publish *)

Lemma Publish_unfold client msg w :
  Publish client msg w
  = let w1 :=
      if Retain msg then
        if decide (0 < length (Payload msg)) then
          set_retained
            (Tree.Set_ (Topic msg) (IMessage msg) (retained (backend w))) w
        else set_retained (Tree.Empty_ (Topic msg) (retained (backend w))) w
      else w in
    (None,
     set_heap
       (foldl (λ h a, alter (Session.queue msg) a h) (heap w)
              (omap as_session
                    (Tree.Match (Topic msg) (offlineQueue (backend w)))))
       (set_calls
          (calls w ++ ((λ c, CallPublish c msg)
                         <$> omap as_client
                               (Tree.Match (Topic msg) (queue (backend w)))))
          w1)).
Proof.
  unfold Publish. rewrite publish_loop_sessions, publish_loop_clients.
  destruct (Retain msg); [case_decide|]; reflexivity.
Qed.

Lemma Publish_retained client msg w :
  retained (backend (Publish client msg w).2)
  = if Retain msg then
      if decide (0 < length (Payload msg)) then
        Tree.Set_ (Topic msg) (IMessage msg) (retained (backend w))
      else Tree.Empty_ (Topic msg) (retained (backend w))
    else retained (backend w).
Proof.
  rewrite Publish_unfold. destruct (Retain msg); [case_decide|]; reflexivity.
Qed.

Lemma Publish_frame client msg w :
  let w' := (Publish client msg w).2 in
  queue (backend w') = queue (backend w)
  ∧ offlineQueue (backend w') = offlineQueue (backend w)
  ∧ sessions (backend w') = sessions (backend w)
  ∧ Logins (backend w') = Logins (backend w)
  ∧ contexts w' = contexts w
  ∧ goroutines w' = goroutines w
  ∧ length (heap w') = length (heap w).
Proof.
  rewrite Publish_unfold.
  assert (∀ (f : MemorySession → MemorySession) l h,
            length (foldl (λ h a, alter f a h) h l) = length h) as Hlen.
  { intros f l. induction l as [|a l IH]; intros h; simpl; [done|].
    by rewrite IH, length_alter. }
  destruct (Retain msg); [case_decide|]; simpl; by rewrite Hlen.
Qed.

Lemma queued_fields msg n s :
  subscriptions (queued msg n s) = subscriptions s
  ∧ outgoing (queued msg n s) = outgoing s
  ∧ incoming (queued msg n s) = incoming s
  ∧ packetIdCounter (queued msg n s) = packetIdCounter s
  ∧ currentClient (queued msg n s) = currentClient s
  ∧ missedQueue (queued msg n s) = missedQueue s ++ replicate n msg.
Proof.
  unfold queued. induction n as [|n IH]; simpl.
  - by rewrite app_nil_r.
  - destruct IH as (-> & -> & -> & -> & -> & ->).
    split_and!; try done.
    rewrite <-app_assoc. f_equal.
    change (replicate n msg ++ [msg] = replicate (S n) msg).
    induction n as [|k IHk]; simpl; [done|]. by rewrite IHk.
Qed.

(** C6: one call of Publish sends the message, before it returns, to
    every client among the values of queue.Match(msg.Topic), once per
    matched value and in their order, and appends it to the missed messages
    of every session among the values of offlineQueue.Match(msg.Topic), once
    per matched value; no other client and no other session gets it, no
    goroutine is started, and the queue, the offline queue, the session
    registry and the contexts stay as they are. *)
Theorem Publish_delivery (client : Client) (msg : Message) (w : World) :
  let w' := (Publish client msg w).2 in
  let clients := omap as_client (Tree.Match (Topic msg) (queue (backend w))) in
  let matched := Tree.Match (Topic msg) (offlineQueue (backend w)) in
  calls w' = calls w ++ ((λ c, CallPublish c msg) <$> clients)
  ∧ (∀ c, inbox c w'
          = inbox c w ++ replicate (length (filter (λ c', c' = c) clients)) msg)
  ∧ (∀ a, heap w' !! a = queued msg (occurrences a matched) <$> heap w !! a)
  ∧ (∀ a, ISession a ∉ matched → heap w' !! a = heap w !! a)
  ∧ goroutines w' = goroutines w
  ∧ queue (backend w') = queue (backend w)
  ∧ offlineQueue (backend w') = offlineQueue (backend w)
  ∧ sessions (backend w') = sessions (backend w)
  ∧ contexts w' = contexts w.
Proof.
  intros w' clients matched.
  assert (calls w' = calls w ++ ((λ c, CallPublish c msg) <$> clients)) as Hc.
  { unfold w'. rewrite Publish_unfold.
    destruct (Retain msg); [case_decide|]; reflexivity. }
  assert (∀ a, heap w' !! a = queued msg (occurrences a matched) <$> heap w !! a)
    as Hh.
  { intros a. unfold w'. rewrite Publish_unfold.
    cbn [snd heap set_heap]. by rewrite alter_loop_lookup. }
  destruct (Publish_frame client msg w) as (Hq & Ho & Hs & _ & Hx & Hg & _).
  split_and!; try done.
  - intros c. unfold inbox. rewrite Hc, omap_app. f_equal.
    clear. induction clients as [|c' cs IH]; simpl; [done|].
    rewrite filter_cons. case_decide; simpl; [f_equal|]; exact IH.
  - intros a Hna. rewrite Hh.
    assert (occurrences a matched = 0) as ->.
    { unfold occurrences. clear -Hna.
      induction matched as [|v vs IH]; simpl; [done|].
      apply not_elem_of_cons in Hna as [Hv Hvs].
      destruct v; simpl; try by apply IH.
      rewrite filter_cons. case_decide; [congruence|]. by apply IH. }
    simpl. by destruct (heap w !! a).
Qed.

(** ** The retained store *)

Section retained_store.
Implicit Types (tr : list (string * iface)) (v : iface) (topic : string).

Lemma Get_filter_ne topic topic' tr :
  topic ≠ topic' →
  Tree.Get topic (filter (λ e, e.1 ≠ topic') tr) = Tree.Get topic tr.
Proof.
  intros Hne. unfold Tree.Get. f_equal.
  induction tr as [|e tr IH]; [done|].
  rewrite !filter_cons. repeat case_decide; simpl in *; try congruence.
  - rewrite filter_cons. case_decide; [|done]. by rewrite IH.
  - rewrite filter_cons. case_decide; [done|]. by rewrite IH.
Qed.

Lemma Get_filter_eq topic tr :
  Tree.Get topic (filter (λ e, e.1 ≠ topic) tr) = [].
Proof.
  unfold Tree.Get.
  induction tr as [|e tr IH]; [done|].
  rewrite filter_cons. case_decide; [|done].
  rewrite filter_cons. by case_decide.
Qed.

Lemma Get_app topic tr1 tr2 :
  Tree.Get topic (tr1 ++ tr2) = Tree.Get topic tr1 ++ Tree.Get topic tr2.
Proof. unfold Tree.Get. by rewrite filter_app, fmap_app. Qed.

Lemma Get_Set topic topic' v tr :
  Tree.Get topic (Tree.Set_ topic' v tr)
  = if decide (topic = topic') then [v] else Tree.Get topic tr.
Proof.
  unfold Tree.Set_. rewrite Get_app. case_decide as Ht.
  - subst. rewrite Get_filter_eq. unfold Tree.Get.
    rewrite filter_cons. by case_decide.
  - rewrite Get_filter_ne by done. unfold Tree.Get.
    rewrite filter_cons. case_decide; simpl in *; [congruence|].
    by rewrite app_nil_r.
Qed.

Lemma Get_Empty topic topic' tr :
  Tree.Get topic (Tree.Empty_ topic' tr)
  = if decide (topic = topic') then [] else Tree.Get topic tr.
Proof.
  unfold Tree.Empty_. case_decide as Ht.
  - subst. apply Get_filter_eq.
  - by apply Get_filter_ne.
Qed.

End retained_store.

(** ** Setup *)

Lemma id_length_0 (id : string) : String.length id = 0 ↔ id = "".
Proof. destruct id; simpl; split; congruence. Qed.

Lemma Setup_found client id clean w sess :
  id ≠ "" → sessions (backend w) !! id = Some sess →
  Setup client id clean w
  = ((sess, true, None),
     ctx_Set client "session" (ISession sess)
       (set_goroutines (goroutines w ++ [(client, sess)])
          (set_offlineQueue
             (Tree.Clear (ISession sess) (offlineQueue (backend w)))
             (set_heap
                (let h := alter (Session.set_currentClient (Some client))
                                sess (heap w) in
                 if clean then alter Session.Reset sess h else h)
                (set_calls
                   (calls w ++ match currentClient_at sess w with
                               | Some old => [CallClose old true]
                               | None => []
                               end)
                   (ctx_Set client "clean" (IBool clean) w)))))).
Proof.
  intros Hid Hs. unfold Setup. rewrite decide_False by by rewrite id_length_0.
  change (sessions (backend (ctx_Set client "clean" (IBool clean) w)))
    with (sessions (backend w)).
  rewrite Hs.
  change (currentClient_at sess (ctx_Set client "clean" (IBool clean) w))
    with (currentClient_at sess w).
  destruct (currentClient_at sess w) as [old|]; destruct clean;
    rewrite ?app_nil_r; reflexivity.
Qed.

Lemma Setup_fresh client id clean w :
  id ≠ "" → sessions (backend w) !! id = None →
  Setup client id clean w
  = let w := ctx_Set client "clean" (IBool clean) w in
    let sess := length (heap w) in
    let w := set_heap (heap w ++ [Session.set_currentClient (Some client)
                                    Session.NewMemorySession]) w in
    let w := set_sessions (<[id := sess]> (sessions (backend w))) w in
    let w := ctx_Set client "session" (ISession sess) w in
    ((sess, false, None), w).
Proof.
  intros Hid Hs. unfold Setup. rewrite decide_False by by rewrite id_length_0.
  cbn [ctx_Set set_contexts backend]. by rewrite Hs.
Qed.

Lemma Setup_empty client clean w :
  Setup client "" clean w
  = let w := ctx_Set client "clean" (IBool clean) w in
    let sess := length (heap w) in
    let w := set_heap (heap w ++ [Session.NewMemorySession]) w in
    let w := ctx_Set client "session" (ISession sess) w in
    ((sess, false, None), w).
Proof. reflexivity. Qed.

(** C3: when Setup finds a stored session for a non-empty id and that
    session has a current client, Setup calls Close on exactly that client,
    with clean = true (so that its Will is not sent), and makes no other call
    on a client; the client closed is the one attached before the call, and
    the connecting client is attached after it: the session Setup returns
    as resumed is the stored one with the connecting client written into
    it, reset after that if clean is true. *)
Theorem Setup_closes_existing_client (client : Client) (id : string)
    (clean : bool) (w : World) (sess : addr) (s : MemorySession)
    (old : Client) :
  id ≠ "" →
  sessions (backend w) !! id = Some sess →
  heap w !! sess = Some s →
  currentClient s = Some old →
  (Setup client id clean w).1 = (sess, true, None)
  ∧ calls (Setup client id clean w).2 = calls w ++ [CallClose old true]
  ∧ heap (Setup client id clean w).2 !! sess
    = Some (let s1 := Session.set_currentClient (Some client) s in
            if clean then Session.Reset s1 else s1)
  ∧ (clean = false →
     currentClient_at sess (Setup client id clean w).2 = Some client).
Proof.
  intros Hid Hs Hh Hold. rewrite (Setup_found _ _ _ _ sess) by done.
  assert (currentClient_at sess w = Some old) as Hcur.
  { unfold currentClient_at. by rewrite Hh. }
  rewrite Hcur. split_and!; [done|done| |].
  - destruct clean; simpl; rewrite !list_lookup_alter_eq, Hh; done.
  - intros ->. unfold currentClient_at. simpl.
    by rewrite !list_lookup_alter_eq, Hh.
Qed.

Lemma Setup_closes_existing_client_witness :
  (Setup 2 "a" false connected_world).1 = (0, true, None)
  ∧ calls (Setup 2 "a" false connected_world).2
    = calls connected_world ++ [CallClose 1 true]
  ∧ currentClient_at 0 (Setup 2 "a" false connected_world).2 = Some 2.
Proof.
  destruct (Setup_closes_existing_client 2 "a" false connected_world 0
              (mkMemorySession ∅ [] [] 1%N [] (Some 1)) 1)
    as (H1 & H2 & _ & H4).
  - by vm_compute.
  - by vm_compute.
  - by vm_compute.
  - by vm_compute.
  - split_and!; [exact H1 | exact H2 | by apply H4].
Defined.


(** ** Terminate *)

(** The subscriptions Terminate registers in the offline queue. *)
Lemma Terminate_unfold client w :
  Terminate client w
  = (None,
     let w1 := set_queue (Tree.Clear (IClient client) (queue (backend w))) w in
     match as_session (ctx_Get client "session" w) with
     | Some session =>
         let w2 := on_session session (Session.set_currentClient None) w1 in
         match as_bool (ctx_Get client "clean" w) with
         | Some true => on_session session Session.Reset w2
         | _ =>
             set_offlineQueue
               (foldl (λ o sub,
                         if (1 <=? sub_QOS sub)%N
                         then Tree.Add (sub_Topic sub) (ISession session) o
                         else o)
                      (offlineQueue (backend w))
                      (AllSubscriptions_at session w).1) w2
         end
     | None => w1
     end).
Proof.
  unfold Terminate.
  change (ctx_Get client "session"
            (set_queue (Tree.Clear (IClient client) (queue (backend w))) w))
    with (ctx_Get client "session" w).
  destruct (as_session (ctx_Get client "session" w)) as [session|]; [|done].
  change (ctx_Get client "clean"
            (on_session session (Session.set_currentClient None)
               (set_queue (Tree.Clear (IClient client) (queue (backend w))) w)))
    with (ctx_Get client "clean" w).
  assert (∀ w0 : World,
            AllSubscriptions_at session
              (on_session session (Session.set_currentClient None) w0)
            = AllSubscriptions_at session w0) as Hsubs.
  { intros w0. unfold AllSubscriptions_at, on_session. simpl.
    rewrite list_lookup_alter_eq. by destruct (heap w0 !! session). }
  rewrite Hsubs.
  change (AllSubscriptions_at session
            (set_queue (Tree.Clear (IClient client) (queue (backend w))) w))
    with (AllSubscriptions_at session w).
  assert (∃ subs, AllSubscriptions_at session w = (subs, None)) as [subs Hs].
  { unfold AllSubscriptions_at. destruct (heap w !! session); by eexists. }
  rewrite Hs. cbn [fst].
  destruct (as_bool (ctx_Get client "clean" w)) as [[]|];
    [done| |]; by rewrite terminate_loop.
Qed.

Lemma elem_of_AllSubscriptions_at sess w s sub :
  heap w !! sess = Some s →
  sub ∈ (AllSubscriptions_at sess w).1
  ↔ subscriptions s !! sub_Topic sub = Some (sub_QOS sub).
Proof.
  intros Hs. unfold AllSubscriptions_at. rewrite Hs. simpl.
  rewrite list_elem_of_fmap. split.
  - intros ([f q] & -> & Hin). simpl. by apply elem_of_map_to_list in Hin.
  - intros Hl. exists (sub_Topic sub, sub_QOS sub). split; [by destruct sub|].
    by apply elem_of_map_to_list.
Qed.

(** ** Goroutines *)

Lemma replay_loop client msgs w :
  foldl (λ w msg, client_Publish client msg w) w msgs
  = set_calls (calls w ++ (CallPublish client <$> msgs)) w.
Proof.
  revert w. induction msgs as [|m msgs IH]; intros w; simpl.
  - by rewrite app_nil_r, set_calls_id.
  - rewrite IH. unfold client_Publish, set_calls. simpl.
    by rewrite <-app_assoc.
Qed.

Lemma replay_unfold client sess w :
  replay client sess w
  = match heap w !! sess with
    | Some s =>
        set_calls (calls w ++ (CallPublish client <$> missedQueue s))
                  (set_heap (<[sess := (Session.missed s).2]> (heap w)) w)
    | None => w
    end.
Proof.
  unfold replay. destruct (heap w !! sess) as [s|]; [|done].
  cbn [Session.missed snd]. by rewrite replay_loop.
Qed.

Lemma run_goroutine_backend i w : backend (run_goroutine i w) = backend w.
Proof.
  unfold run_goroutine. destruct (goroutines w !! i) as [[c a]|]; [|done].
  rewrite replay_unfold. simpl. by destruct (heap w !! a).
Qed.

Lemma run_goroutine_contexts i w : contexts (run_goroutine i w) = contexts w.
Proof.
  unfold run_goroutine. destruct (goroutines w !! i) as [[c a]|]; [|done].
  rewrite replay_unfold. simpl. by destruct (heap w !! a).
Qed.

Lemma run_goroutine_heap_length i w :
  length (heap (run_goroutine i w)) = length (heap w).
Proof.
  unfold run_goroutine. destruct (goroutines w !! i) as [[c a]|]; [|done].
  rewrite replay_unfold. simpl. destruct (heap w !! a); [|done].
  simpl. by rewrite length_insert.
Qed.

(** ** Steps and runs *)

Ltac Setup_cases id w Hid Hs :=
  destruct (decide (id = "")) as [->|Hid];
  [ rewrite Setup_empty
  | let sess := fresh "sess" in
    destruct (sessions (backend w) !! id) as [sess|] eqn:Hs;
    [ rewrite (Setup_found _ id _ w sess) by done
    | rewrite (Setup_fresh _ id _ w) by done ] ].

Lemma run_snoc tr o w : run (tr ++ [o]) w = step (run tr w) o.
Proof. unfold run. by rewrite foldl_app. Qed.

Lemma run_app tr1 tr2 w : run (tr1 ++ tr2) w = run tr2 (run tr1 w).
Proof. unfold run. by rewrite foldl_app. Qed.

Lemma Terminate_heap_length client w :
  length (heap (Terminate client w).2) = length (heap w).
Proof.
  rewrite Terminate_unfold. cbn [snd].
  destruct (as_session _) as [a|]; [|done].
  destruct (as_bool _) as [[]|]; simpl; by rewrite ?length_alter.
Qed.

Lemma Terminate_sessions client w :
  sessions (backend (Terminate client w).2) = sessions (backend w).
Proof.
  rewrite Terminate_unfold. cbn [snd].
  destruct (as_session _) as [a|]; [|done].
  by destruct (as_bool _) as [[]|].
Qed.

Lemma on_bound_session_backend c f w :
  backend (on_bound_session c f w) = backend w.
Proof. unfold on_bound_session. by destruct (as_session _). Qed.

Lemma on_bound_session_heap_length c f w :
  length (heap (on_bound_session c f w)) = length (heap w).
Proof.
  unfold on_bound_session. destruct (as_session _); [|done].
  simpl. by rewrite length_alter.
Qed.

(** No step frees a session: the heap never shrinks. *)
Lemma step_heap_length w o : length (heap w) ≤ length (heap (step w o)).
Proof.
  destruct o as [c id clean|c t|c t|c msg|c|i|c sub|c flt]; cbn [step].
  - Setup_cases id w Hid Hs; try destruct clean; simpl;
      rewrite ?length_app, ?length_alter; lia.
  - done.
  - done.
  - by destruct (Publish_frame c msg w) as (_ & _ & _ & _ & _ & _ & ->).
  - by rewrite Terminate_heap_length.
  - by rewrite run_goroutine_heap_length.
  - by rewrite on_bound_session_heap_length.
  - by rewrite on_bound_session_heap_length.
Qed.

(** The registry changes in one way only: Setup stores a fresh session
    under an id that had none. *)
Lemma step_sessions w o :
  sessions (backend (step w o)) = sessions (backend w)
  ∨ ∃ id, sessions (backend w) !! id = None
          ∧ sessions (backend (step w o))
            = <[id := length (heap w)]> (sessions (backend w))
          ∧ length (heap (step w o)) = S (length (heap w)).
Proof.
  destruct o as [c id clean|c t|c t|c msg|c|i|c sub|c flt]; cbn [step].
  - Setup_cases id w Hid Hs; simpl; try (by left).
    right. exists id. split_and!; [done|done|].
    rewrite length_app. simpl. lia.
  - by left.
  - by left.
  - left. by destruct (Publish_frame c msg w) as (_ & _ & -> & _).
  - left. by rewrite Terminate_sessions.
  - left. by rewrite run_goroutine_backend.
  - left. by rewrite on_bound_session_backend.
  - left. by rewrite on_bound_session_backend.
Qed.

(** No step removes or redirects an entry of the registry. *)
Lemma step_sessions_mono w o id a :
  sessions (backend w) !! id = Some a →
  sessions (backend (step w o)) !! id = Some a.
Proof.
  intros Hs.
  destruct (step_sessions w o) as [->|(id' & Hn & -> & _)]; [done|].
  rewrite lookup_insert_ne; [done|]. intros ->. congruence.
Qed.

(** Every pointer of the registry points to a session of the heap. *)
Lemma step_registry_live w o : registry_live w → registry_live (step w o).
Proof.
  intros Hl id a Ha. pose proof (step_heap_length w o) as Hlen.
  destruct (step_sessions w o) as [Heq|(id' & Hn & Heq & Hgrow)];
    rewrite Heq in Ha.
  - specialize (Hl id a Ha). simpl in Hl. lia.
  - destruct (decide (id' = id)) as [->|Hne].
    + rewrite lookup_insert_eq in Ha. injection Ha as <-. lia.
    + rewrite lookup_insert_ne in Ha by done.
      specialize (Hl id a Ha). simpl in Hl. lia.
Qed.

Lemma run_registry_live tr w : registry_live w → registry_live (run tr w).
Proof.
  revert w. induction tr as [|o tr IH]; intros w Hl; [done|].
  simpl. apply IH. by apply step_registry_live.
Qed.

Lemma init_registry_live : registry_live init.
Proof. intros id a Ha. done. Qed.

(** ** Sessions returned by Setup *)

Lemma Setup_result client id clean w :
  (Setup client id clean w).1.1.1 = length (heap w)
  ∨ ∃ id', sessions (backend w) !! id' = Some (Setup client id clean w).1.1.1.
Proof.
  Setup_cases id w Hid Hs; simpl; [by left| |by left].
  right. by exists id.
Qed.

Lemma step_unregistered a w o :
  a < length (heap w) →
  (∀ id, sessions (backend w) !! id ≠ Some a) →
  ∀ id, sessions (backend (step w o)) !! id ≠ Some a.
Proof.
  intros Ha Hu id.
  destruct (step_sessions w o) as [->|(id' & Hn & -> & _)]; [done|].
  destruct (decide (id' = id)) as [->|Hne].
  - rewrite lookup_insert_eq. intros [= <-]. lia.
  - by rewrite lookup_insert_ne.
Qed.

Lemma run_unregistered a tr w :
  a < length (heap w) →
  (∀ id, sessions (backend w) !! id ≠ Some a) →
  a < length (heap (run tr w))
  ∧ ∀ id, sessions (backend (run tr w)) !! id ≠ Some a.
Proof.
  revert w. induction tr as [|o tr IH]; intros w Ha Hu; [done|].
  simpl. apply IH.
  - pose proof (step_heap_length w o). lia.
  - by apply step_unregistered.
Qed.

(** C8: Setup with an empty id creates a fresh session, returns it with
    resumed = false and a nil error, and does not store it in the registry;
    no later Setup, with whatever id and after whatever run, returns
    that session. *)
Theorem Setup_anonymous_session (client : Client) (clean : bool) (w : World) :
  registry_live w →
  let sess := (Setup client "" clean w).1.1.1 in
  let w' := (Setup client "" clean w).2 in
  (Setup client "" clean w).1 = (sess, false, None)
  ∧ heap w !! sess = None
  ∧ heap w' !! sess = Some Session.NewMemorySession
  ∧ sessions (backend w') = sessions (backend w)
  ∧ (∀ id, sessions (backend w') !! id ≠ Some sess)
  ∧ (∀ tr client' id' clean',
       (Setup client' id' clean' (run tr w')).1.1.1 ≠ sess).
Proof.
  intros Hlive. rewrite Setup_empty. cbn zeta. cbn [fst snd].
  assert (∀ id, sessions (backend w) !! id ≠ Some (length (heap w))) as Hun.
  { intros id Hs. specialize (Hlive id _ Hs). simpl in Hlive. lia. }
  split_and!; try done.
  - by apply lookup_ge_None_2.
  - simpl. by rewrite lookup_app_r, Nat.sub_diag.
  - intros tr client' id' clean'.
    set (w' := ctx_Set client "session" _ _).
    destruct (run_unregistered (length (heap w)) tr w') as [Hlt Hu].
    { unfold w'. simpl. rewrite length_app. simpl. lia. }
    { done. }
    change (length (heap (ctx_Set client "clean" (IBool clean) w)))
      with (length (heap w)).
    destruct (Setup_result client' id' clean' (run tr w')) as [->|[id'' Hs]].
    + lia.
    + intros Heq. rewrite Heq in Hs. by apply Hu in Hs.
Qed.

Lemma Setup_anonymous_session_witness :
  (Setup 2 "" true connected_world).1 = (1, false, None)
  ∧ (∀ id, sessions (backend (Setup 2 "" true connected_world).2) !! id
           ≠ Some 1)
  ∧ (∀ tr client' id' clean',
       (Setup client' id' clean'
          (run tr (Setup 2 "" true connected_world).2)).1.1.1 ≠ 1).
Proof.
  destruct (Setup_anonymous_session 2 true connected_world)
    as (H1 & _ & _ & _ & H5 & H6).
  - apply (bool_decide_unpack _). by vm_compute.
  - split_and!; [exact H1 | exact H5 | exact H6].
Defined.


(** C10: Setup with an empty id leaves the current client of the session
    it returns unset.  Setup with a non-empty id writes the connecting
    client into the session: the session it returns has the connecting
    client as its current client when the id is new or clean is false.
    When clean is true and a session is stored for the id, the Reset
    that follows the assignment clears the field again, and the session
    is returned without a current client. *)
Theorem Setup_currentClient (client : Client) (id : string) (clean : bool)
    (w : World) :
  registry_live w →
  currentClient_at (Setup client id clean w).1.1.1 (Setup client id clean w).2
  = if decide (id = "") then None
    else if clean && bool_decide (is_Some (sessions (backend w) !! id))
         then None
         else Some client.
Proof.
  intros Hlive. unfold currentClient_at.
  Setup_cases id w Hid Hs; cbn [fst snd].
  - simpl. by rewrite lookup_app_r, Nat.sub_diag.
  - specialize (Hlive id sess Hs). simpl in Hlive.
    apply lookup_lt_is_Some_2 in Hlive as [s Hh].
    rewrite bool_decide_eq_true_2 by done.
    destruct clean; simpl; rewrite !list_lookup_alter_eq, Hh; done.
  - rewrite bool_decide_eq_false_2 by by intros [? ?].
    rewrite andb_false_r.
    simpl. by rewrite lookup_app_r, Nat.sub_diag.
Qed.

Lemma Setup_currentClient_witness :
  currentClient_at (Setup 2 "" true connected_world).1.1.1
                   (Setup 2 "" true connected_world).2 = None
  ∧ currentClient_at (Setup 2 "a" true connected_world).1.1.1
                     (Setup 2 "a" true connected_world).2 = None
  ∧ currentClient_at (Setup 2 "a" false connected_world).1.1.1
                     (Setup 2 "a" false connected_world).2 = Some 2
  ∧ currentClient_at (Setup 2 "b" true connected_world).1.1.1
                     (Setup 2 "b" true connected_world).2 = Some 2.
Proof.
  assert (registry_live connected_world) as Hlive.
  { apply (bool_decide_unpack _). by vm_compute. }
  split_and!.
  - exact (Setup_currentClient 2 "" true connected_world Hlive).
  - exact (Setup_currentClient 2 "a" true connected_world Hlive).
  - exact (Setup_currentClient 2 "a" false connected_world Hlive).
  - exact (Setup_currentClient 2 "b" true connected_world Hlive).
Defined.

(** After client 2 has taken over the id "a" with clean = true, the
    session of "a" has no current client, and a Setup of client 3 for "a"
    closes nobody: the only Close call ever made is the one on client 1. *)
Example clean_takeover_is_not_evicted :
  currentClient_at 0 (Setup 2 "a" true connected_world).2 = None
  ∧ calls (Setup 3 "a" false (Setup 2 "a" true connected_world).2).2
    = [CallClose 1 true].
Proof. by vm_compute. Qed.


(** C5: when Setup finds a stored session for a non-empty id it returns
    that session with resumed = true; the connecting client has been
    written into it as its current client; after that the session has been
    reset if clean is true and is otherwise as it was, with the connecting
    client as its current client; it is registered under no filter of the
    offline queue, whose
    other entries are kept; and the replay of the missed messages has been
    spawned, not run: it is the pending goroutine added last, the client
    has been sent nothing yet, and running a goroutine never touches the
    offline queue. *)
Theorem Setup_resumes (client : Client) (id : string) (clean : bool)
    (w : World) (sess : addr) (s : MemorySession) :
  id ≠ "" →
  sessions (backend w) !! id = Some sess →
  heap w !! sess = Some s →
  let w' := (Setup client id clean w).2 in
  (Setup client id clean w).1 = (sess, true, None)
  ∧ heap w' !! sess
    = Some (let s1 := Session.set_currentClient (Some client) s in
            if clean then Session.Reset s1 else s1)
  ∧ (clean = false → currentClient_at sess w' = Some client)
  ∧ ¬ offline sess w'
  ∧ (∀ e, e ∈ offlineQueue (backend w')
          ↔ e ∈ offlineQueue (backend w) ∧ e.2 ≠ ISession sess)
  ∧ goroutines w' = goroutines w ++ [(client, sess)]
  ∧ inbox client w' = inbox client w
  ∧ (∀ i, offlineQueue (backend (run_goroutine i w'))
          = offlineQueue (backend w'))
  ∧ sessions (backend w') = sessions (backend w)
  ∧ ctx_Get client "session" w' = ISession sess.
Proof.
  intros Hid Hs Hh w'. unfold w'. clear w'.
  rewrite (Setup_found _ _ _ _ sess) by done. cbn [fst snd].
  assert (∀ h : list MemorySession,
            h = (let h := alter (Session.set_currentClient (Some client))
                                sess (heap w) in
                 if clean then alter Session.Reset sess h else h) →
            h !! sess
            = Some (let s1 := Session.set_currentClient (Some client) s in
                    if clean then Session.Reset s1 else s1)) as Hheap.
  { intros h ->. destruct clean; simpl;
      rewrite !list_lookup_alter_eq, Hh; done. }
  split_and!.
  - done.
  - simpl. by apply Hheap.
  - intros ->. unfold currentClient_at. simpl.
    by rewrite !list_lookup_alter_eq, Hh.
  - intros [flt Hin]. simpl in Hin. apply elem_of_Clear in Hin as [_ Hne].
    by apply Hne.
  - intros e. simpl. apply elem_of_Clear.
  - done.
  - unfold inbox. simpl. rewrite omap_app.
    destruct (currentClient_at sess w); simpl; by rewrite app_nil_r.
  - intros i. by rewrite run_goroutine_backend.
  - done.
  - unfold ctx_Get. simpl. rewrite lookup_insert_eq. simpl.
    by rewrite lookup_insert_eq.
Qed.

Lemma Setup_resumes_witness :
  (Setup 2 "a" false (run offline_run init)).1 = (0, true, None)
  ∧ ¬ offline 0 (Setup 2 "a" false (run offline_run init)).2
  ∧ goroutines (Setup 2 "a" false (run offline_run init)).2 = [(2, 0)]
  ∧ inbox 2 (Setup 2 "a" false (run offline_run init)).2 = [].
Proof.
  destruct (Setup_resumes 2 "a" false (run offline_run init) 0
              (mkMemorySession {["t" := 1%N; "u" := 0%N]} [] [] 1%N [] None))
    as (H1 & _ & _ & H4 & _ & H6 & H7 & _).
  - by vm_compute.
  - by vm_compute.
  - by vm_compute.
  - split_and!; [exact H1 | exact H4 | exact H6 | exact H7].
Defined.


(** ** Errors *)

(** C9: Authenticate, Subscribe, Unsubscribe and Publish return a nil
    error on every input and in every state; a denied authentication is
    the pair of false and the nil error. *)
Theorem backend_errors_nil (m : MemoryBackend) (w : World) (client : Client)
    (user password topic : string) (msg : Message) :
  (Authenticate m client user password).2 = None
  ∧ Authenticate m client user password
    = ((Authenticate m client user password).1, None)
  ∧ (Subscribe client topic w).1.2 = None
  ∧ (Unsubscribe client topic w).1 = None
  ∧ (Publish client msg w).1 = None.
Proof.
  pose proof (Authenticate_error m client user password) as He.
  split_and!; try done.
  destruct (Authenticate m client user password) as [b e]. simpl in *.
  by subst.
Qed.

(** ** The retained store along a run *)

Lemma Terminate_retained client w :
  retained (backend (Terminate client w).2) = retained (backend w).
Proof.
  rewrite Terminate_unfold. cbn [snd].
  destruct (as_session _) as [a|]; [|done].
  by destruct (as_bool _) as [[]|].
Qed.

(** Only Publish writes the retained store. *)
Lemma step_retained w o :
  retained (backend (step w o))
  = match o with
    | OpPublish _ msg =>
        if Retain msg then
          if decide (0 < length (Payload msg)) then
            Tree.Set_ (Topic msg) (IMessage msg) (retained (backend w))
          else Tree.Empty_ (Topic msg) (retained (backend w))
        else retained (backend w)
    | _ => retained (backend w)
    end.
Proof.
  destruct o as [c id clean|c t|c t|c msg|c|i|c sub|c flt]; cbn [step].
  - Setup_cases id w Hid Hs; reflexivity.
  - done.
  - done.
  - apply Publish_retained.
  - apply Terminate_retained.
  - by rewrite run_goroutine_backend.
  - by rewrite on_bound_session_backend.
  - by rewrite on_bound_session_backend.
Qed.

Lemma last_retained_snoc topic msgs msg :
  last_retained topic (msgs ++ [msg])
  = if decide (Retain msg = true ∧ Topic msg = topic) then Some msg
    else last_retained topic msgs.
Proof.
  unfold last_retained. rewrite filter_app, filter_cons, filter_nil.
  case_decide.
  - by rewrite last_snoc.
  - by rewrite app_nil_r.
Qed.

Lemma published_snoc tr o :
  published (tr ++ [o])
  = match o with
    | OpPublish _ msg => published tr ++ [msg]
    | _ => published tr
    end.
Proof.
  unfold published. rewrite omap_app.
  destruct o; simpl; by rewrite ?app_nil_r.
Qed.

(** The node of a topic in the retained store holds the last message
    published on it with Retain set, if that message has a payload, and
    nothing otherwise. *)
Lemma retained_along_run tr topic :
  Tree.Get topic (retained (backend (run tr init)))
  = match last_retained topic (published tr) with
    | Some msg => if decide (0 < length (Payload msg)) then [IMessage msg]
                  else []
    | None => []
    end.
Proof.
  induction tr as [|o tr IH] using rev_ind; [done|].
  rewrite run_snoc, step_retained, published_snoc.
  destruct o as [c id clean|c t|c t|c msg|c|i|c sub|c flt]; try exact IH.
  rewrite last_retained_snoc.
  destruct (Retain msg) eqn:Hr.
  - destruct (decide (0 < length (Payload msg))) as [Hp|Hp].
    + rewrite Get_Set. case_decide as Ht.
      * subst. rewrite decide_True by done. by rewrite decide_True.
      * rewrite decide_False by (intros [_ ?]; congruence). exact IH.
    + rewrite Get_Empty. case_decide as Ht.
      * subst. rewrite decide_True by done. by rewrite decide_False.
      * rewrite decide_False by (intros [_ ?]; congruence). exact IH.
  - rewrite decide_False by (intros [? _]; congruence). exact IH.
Qed.

(** C2: Publish with Retain set and a non-empty payload stores the
    message with retained.Set, with Retain set and an empty payload it
    empties the node with retained.Empty, and without Retain it leaves the
    retained store as it is.  Hence after every run from the new backend,
    whatever other calls are interleaved, a retained message exists for
    a topic if and only if the last message published on that topic with
    Retain set had a non-empty payload, and then it is that message and the
    only one. *)
Theorem retained_message_invariant :
  (∀ client msg w,
     retained (backend (Publish client msg w).2)
     = if Retain msg then
         if decide (0 < length (Payload msg)) then
           Tree.Set_ (Topic msg) (IMessage msg) (retained (backend w))
         else Tree.Empty_ (Topic msg) (retained (backend w))
       else retained (backend w))
  ∧ (∀ tr topic,
       has_retained topic (run tr init)
       ↔ ∃ msg, last_retained topic (published tr) = Some msg
                ∧ Payload msg ≠ [])
  ∧ (∀ tr topic v,
       (topic, v) ∈ retained (backend (run tr init))
       ↔ ∃ msg, v = IMessage msg
                ∧ last_retained topic (published tr) = Some msg
                ∧ Payload msg ≠ []).
Proof.
  assert (∀ tr topic v,
            (topic, v) ∈ retained (backend (run tr init))
            ↔ ∃ msg, v = IMessage msg
                     ∧ last_retained topic (published tr) = Some msg
                     ∧ Payload msg ≠ []) as Hmain.
  { intros tr topic v. rewrite <-elem_of_Get, retained_along_run.
    destruct (last_retained topic (published tr)) as [m|].
    - case_decide as Hp.
      + rewrite list_elem_of_singleton. split.
        * intros ->. exists m. split_and!; [done|done|].
          intros Hnil. rewrite Hnil in Hp. simpl in Hp. lia.
        * by intros (m' & -> & [= ->] & _).
      + split; [by intros ?%elem_of_nil|].
        intros (m' & -> & [= ->] & Hne). destruct (Payload m'); [done|].
        simpl in Hp. lia.
    - split; [by intros ?%elem_of_nil|]. by intros (m' & _ & ? & _). }
  split_and!.
  - apply Publish_retained.
  - intros tr topic. unfold has_retained. split.
    + intros [msg Hin]. apply Hmain in Hin as (m & [= <-] & ? & ?).
      by exists msg.
    + intros (msg & Hl & Hp). exists msg. apply Hmain. by exists msg.
  - apply Hmain.
Qed.

(** ** The contexts of the clients along a run *)

Lemma ctx_Get_Set c k v c' k' w :
  ctx_Get c' k' (ctx_Set c k v w)
  = if decide (c = c' ∧ k = k') then v else ctx_Get c' k' w.
Proof.
  unfold ctx_Get, ctx_Set. simpl.
  destruct (decide (c = c')) as [->|Hc].
  - rewrite lookup_insert_eq. simpl.
    destruct (decide (k = k')) as [->|Hk].
    + rewrite lookup_insert_eq. by rewrite decide_True.
    + rewrite lookup_insert_ne by done. by rewrite decide_False by tauto.
  - rewrite lookup_insert_ne by done. by rewrite decide_False by tauto.
Qed.

Lemma ctx_Get_contexts c k w w' :
  contexts w' = contexts w → ctx_Get c k w' = ctx_Get c k w.
Proof. unfold ctx_Get. by intros ->. Qed.

Lemma Terminate_contexts client w :
  contexts (Terminate client w).2 = contexts w.
Proof.
  rewrite Terminate_unfold. cbn [snd].
  destruct (as_session _) as [a|]; [|done].
  by destruct (as_bool _) as [[]|].
Qed.

Lemma on_bound_session_contexts c f w :
  contexts (on_bound_session c f w) = contexts w.
Proof. unfold on_bound_session. by destruct (as_session _). Qed.

(** Only Setup writes a context, and only that of the connecting client. *)
Lemma step_ctx c k w o :
  ctx_Get c k (step w o)
  = match o with
    | OpSetup c' id clean =>
        if decide (c' = c ∧ k = "session") then
          ISession (Setup c' id clean w).1.1.1
        else if decide (c' = c ∧ k = "clean") then IBool clean
        else ctx_Get c k w
    | _ => ctx_Get c k w
    end.
Proof.
  destruct o as [c' id clean|c' t|c' t|c' msg|c'|i|c' sub|c' flt]; cbn [step].
  - assert (∀ r w1,
              contexts w1 = contexts (ctx_Set c' "clean" (IBool clean) w) →
              ctx_Get c k (ctx_Set c' "session" (ISession r) w1)
              = if decide (c' = c ∧ k = "session") then ISession r
                else if decide (c' = c ∧ k = "clean") then IBool clean
                     else ctx_Get c k w) as Hctx.
    { intros r w1 Hw1. rewrite ctx_Get_Set.
      rewrite (ctx_Get_contexts c k _ w1 Hw1), ctx_Get_Set.
      repeat case_decide; destruct_and?; subst; try done; tauto. }
    Setup_cases id w Hid Hs; cbn [fst snd]; by apply Hctx.
  - done.
  - done.
  - apply ctx_Get_contexts.
    by destruct (Publish_frame c' msg w) as (_ & _ & _ & _ & -> & _).
  - apply ctx_Get_contexts, Terminate_contexts.
  - apply ctx_Get_contexts, run_goroutine_contexts.
  - apply ctx_Get_contexts, on_bound_session_contexts.
  - apply ctx_Get_contexts, on_bound_session_contexts.
Qed.

Lemma last_Setup_snoc c tr o :
  last_Setup c (tr ++ [o])
  = match o with
    | OpSetup c' _ clean =>
        if decide (c' = c) then Some clean else last_Setup c tr
    | _ => last_Setup c tr
    end.
Proof.
  unfold last_Setup. rewrite omap_app.
  destruct o as [c' id clean| | | | | | |]; simpl; rewrite ?app_nil_r; try done.
  case_decide; [by rewrite last_snoc | by rewrite app_nil_r].
Qed.

(** The clean flag in the context of a client is the one of its latest
    Setup, and a client has a session bound only after a Setup. *)
Lemma ctx_along_run tr c :
  ctx_Get c "clean" (run tr init)
  = match last_Setup c tr with Some b => IBool b | None => INil end
  ∧ (last_Setup c tr = None → ctx_Get c "session" (run tr init) = INil).
Proof.
  induction tr as [|o tr [IH1 IH2]] using rev_ind; [done|].
  rewrite run_snoc, !step_ctx, last_Setup_snoc.
  destruct o as [c' id clean| | | | | | |]; try done.
  rewrite decide_False by (intros [_ ?]; done).
  destruct (decide (c' = c)) as [->|Hne].
  - rewrite decide_True by done. by rewrite decide_True.
  - rewrite !(decide_False (P := c' = c ∧ _)) by tauto. done.
Qed.

(** ** The offline queue *)

(** What Terminate does to the offline queue. *)
Lemma Terminate_offlineQueue client w :
  offlineQueue (backend (Terminate client w).2)
  = match bound_session client w, connected_clean client w with
    | None, _ | Some _, Some true => offlineQueue (backend w)
    | Some session, _ =>
        foldl (λ o sub, if (1 <=? sub_QOS sub)%N
                        then Tree.Add (sub_Topic sub) (ISession session) o
                        else o)
              (offlineQueue (backend w)) (AllSubscriptions_at session w).1
    end.
Proof.
  rewrite Terminate_unfold. cbn [snd]. unfold bound_session, connected_clean.
  destruct (as_session _) as [a|]; [|done].
  by destruct (as_bool _) as [[]|].
Qed.

Lemma Terminate_registers client w session s e :
  bound_session client w = Some session →
  connected_clean client w ≠ Some true →
  heap w !! session = Some s →
  e ∈ offlineQueue (backend (Terminate client w).2)
  ↔ e ∈ offlineQueue (backend w)
    ∨ ∃ q, subscriptions s !! e.1 = Some q ∧ (1 ≤ q)%N
           ∧ e.2 = ISession session.
Proof.
  intros Hb Hc Hh. rewrite Terminate_offlineQueue, Hb.
  assert (e ∈ foldl (λ o sub, if (1 <=? sub_QOS sub)%N
                        then Tree.Add (sub_Topic sub) (ISession session) o
                        else o)
              (offlineQueue (backend w)) (AllSubscriptions_at session w).1
          ↔ e ∈ offlineQueue (backend w)
            ∨ ∃ q, subscriptions s !! e.1 = Some q ∧ (1 ≤ q)%N
                   ∧ e.2 = ISession session) as Hloop.
  { rewrite terminate_loop_elem. split.
    - intros [?|(sub & Hin & Hq & ->)]; [by left|]. right.
      exists (sub_QOS sub). split_and!; [|done|done].
      by apply (elem_of_AllSubscriptions_at session w s).
    - intros [?|(q & Hl & Hq & Hv)]; [by left|]. right.
      exists (mkSubscription e.1 q). split_and!; [|done|].
      + by apply (elem_of_AllSubscriptions_at session w s).
      + destruct e as [f v]. simpl in *. by subst. }
  destruct (connected_clean client w) as [[]|]; done.
Qed.

(** An entry enters the offline queue in one way only: Terminate, called
    by a client bound to the session whose clean flag is not true, for a
    subscription of the session with QoS 1 or 2. *)
Lemma step_offlineQueue w o e :
  e ∈ offlineQueue (backend (step w o)) →
  e ∈ offlineQueue (backend w)
  ∨ ∃ c a s q, o = OpTerminate c ∧ e.2 = ISession a
               ∧ bound_session c w = Some a
               ∧ connected_clean c w ≠ Some true
               ∧ heap w !! a = Some s
               ∧ subscriptions s !! e.1 = Some q ∧ (1 ≤ q)%N.
Proof.
  destruct o as [c id clean|c t|c t|c msg|c|i|c sub|c flt]; cbn [step].
  - Setup_cases id w Hid Hs; simpl; try (by left).
    intros [? _]%elem_of_Clear. by left.
  - by left.
  - by left.
  - destruct (Publish_frame c msg w) as (_ & -> & _). by left.
  - destruct (bound_session c w) as [a|] eqn:Hb;
      [|rewrite Terminate_offlineQueue, Hb; by left].
    destruct (decide (connected_clean c w = Some true)) as [Hc|Hc];
      [rewrite Terminate_offlineQueue, Hb, Hc; by left|].
    destruct (heap w !! a) as [s|] eqn:Hh.
    + rewrite (Terminate_registers c w a s) by done.
      intros [?|(q & Hq & Hle & Hv)]; [by left|].
      right. by exists c, a, s, q.
    + rewrite Terminate_offlineQueue, Hb. unfold AllSubscriptions_at.
      rewrite Hh. simpl. intros ?. left.
      by destruct (connected_clean c w) as [[]|].
  - rewrite run_goroutine_backend. by left.
  - rewrite on_bound_session_backend. by left.
  - rewrite on_bound_session_backend. by left.
Qed.

Lemma registered_by_snoc tr o flt a :
  registered_by tr flt a → registered_by (tr ++ [o]) flt a.
Proof.
  intros (pre & c & post & s & q & -> & H).
  exists pre, c, (post ++ [o]), s, q. split; [|done].
  by rewrite <-app_assoc.
Qed.

(** Every entry of the offline queue of a reachable state goes back to
    a Terminate of the run. *)
Lemma offline_origin tr flt a :
  (flt, ISession a) ∈ offlineQueue (backend (run tr init)) →
  registered_by tr flt a.
Proof.
  induction tr as [|o tr IH] using rev_ind.
  - by intros ?%elem_of_nil.
  - rewrite run_snoc.
    intros [Hin|(c & a' & s & q & -> & [= <-] & Hb & Hc & Hh & Hq & Hle)]
      %step_offlineQueue.
    + by apply registered_by_snoc, IH.
    + exists tr, c, [], s, q. split_and!; try done.
      destruct (ctx_along_run tr c) as [Hclean Hsess].
      unfold connected_clean in Hc. unfold bound_session in Hb.
      destruct (last_Setup c tr) as [[]|].
      * by rewrite Hclean in Hc.
      * done.
      * by rewrite Hsess in Hb.
Qed.

(** X20: Terminate leaves the offline queue as it is when the
    client connected with clean = true or has no session bound; otherwise it
    adds the session of the client under exactly the filters of its
    subscriptions with QoS 1 or 2, and under no other filter; Setup for
    a stored session removes that session from every filter of the offline
    queue; and in every reachable state each entry of the offline queue goes
    back to a Terminate of a client that had connected with clean = false, was
    bound to the session, and found in it the subscription to that filter
    with QoS 1 or 2. *)
Theorem offline_queue_membership :
  (∀ client w,
     connected_clean client w = Some true →
     offlineQueue (backend (Terminate client w).2) = offlineQueue (backend w))
  ∧ (∀ client w,
       bound_session client w = None →
       offlineQueue (backend (Terminate client w).2)
       = offlineQueue (backend w))
  ∧ (∀ client w session s e,
       bound_session client w = Some session →
       connected_clean client w ≠ Some true →
       heap w !! session = Some s →
       e ∈ offlineQueue (backend (Terminate client w).2)
       ↔ e ∈ offlineQueue (backend w)
         ∨ ∃ q, subscriptions s !! e.1 = Some q ∧ (1 ≤ q)%N
                ∧ e.2 = ISession session)
  ∧ (∀ client id clean w sess,
       id ≠ "" → sessions (backend w) !! id = Some sess →
       ¬ offline sess (Setup client id clean w).2)
  ∧ (∀ tr flt a,
       (flt, ISession a) ∈ offlineQueue (backend (run tr init)) →
       registered_by tr flt a).
Proof.
  split_and!.
  - intros client w Hc. rewrite Terminate_offlineQueue, Hc.
    by destruct (bound_session client w).
  - intros client w Hb. by rewrite Terminate_offlineQueue, Hb.
  - apply Terminate_registers.
  - intros client id clean w sess Hid Hs [flt Hin].
    rewrite (Setup_found _ _ _ _ sess) in Hin by done. simpl in Hin.
    apply elem_of_Clear in Hin as [_ Hne]. by apply Hne.
  - apply offline_origin.
Qed.

Lemma offline_queue_membership_witness :
  offlineQueue (backend (run offline_run init)) = [("t", ISession 0)]
  ∧ registered_by offline_run "t" 0.
Proof.
  split; [by vm_compute|].
  destruct offline_queue_membership as (_ & _ & _ & _ & Horigin).
  apply Horigin. apply (bool_decide_unpack _). by vm_compute.
Defined.

(** After the takeover run the session stored for "a" is registered in
    the offline queue under "t" and holds no subscription at all. *)
Lemma offline_session_without_subscription : ¬ offline_sessions_subscribed.
Proof.
  intros H. destruct (H takeover_run 0) as (s & flt & q & Hh & Hs & _).
  - exists "t". apply (bool_decide_unpack _). by vm_compute.
  - vm_compute in Hh. injection Hh as <-. by cbn in Hs.
Qed.

(** C1: the membership invariant is broken by the Terminate of a client
    whose id has been taken over.  In the takeover run, the Setup of client
    2 for "a" closes client 1, attaches client 2 to the session and removes
    the session from the offline queue; the Terminate of client 1, which
    follows, sets the current client of the session to nil and registers the
    session under "t" although client 2 owns it; when client 2 then
    unsubscribes from "t" the session is still registered in the offline
    queue and holds no subscription with QoS 1 or 2. *)
Theorem takeover_breaks_offline_membership :
  let after_Setup_2 := run (take 4 takeover_run) init in
  let after_Terminate_1 := run (take 5 takeover_run) init in
  let w := run takeover_run init in
  (calls after_Setup_2 = [CallClose 1 true]
   ∧ currentClient_at 0 after_Setup_2 = Some 2
   ∧ bound_session 2 after_Setup_2 = Some 0
   ∧ offlineQueue (backend after_Setup_2) = [])
  ∧ (currentClient_at 0 after_Terminate_1 = None
     ∧ bound_session 2 after_Terminate_1 = Some 0
     ∧ offlineQueue (backend after_Terminate_1) = [("t", ISession 0)])
  ∧ (offline 0 w
     ∧ subscriptions <$> heap w !! 0 = Some ∅
     ∧ ¬ holds_offline_subscription 0 w).
Proof.
  cbv zeta. split_and!; try by vm_compute.
  - exists "t". apply (bool_decide_unpack _). by vm_compute.
  - intros (s & flt & q & Hh & Hs & _).
    vm_compute in Hh. injection Hh as <-. by cbn in Hs.
Qed.

(** ** The lifecycle of a stored session *)

(** Publish appends the message to the missed messages of a session once
    per occurrence of the session among the matched values, and changes
    nothing else in it. *)
Lemma Publish_heap_lookup client msg w a :
  heap (Publish client msg w).2 !! a
  = queued msg (occurrences a (Tree.Match (Topic msg)
                                 (offlineQueue (backend w))))
    <$> heap w !! a.
Proof.
  rewrite Publish_unfold. cbn [snd heap set_heap].
  by rewrite alter_loop_lookup.
Qed.


Lemma state_kept_refl s : state_kept s s.
Proof. by repeat split. Qed.

Lemma state_kept_set_currentClient c s :
  state_kept s (Session.set_currentClient c s).
Proof. by repeat split. Qed.

Lemma state_kept_queued msg n s : state_kept s (queued msg n s).
Proof.
  unfold state_kept.
  destruct (queued_fields msg n s) as (-> & -> & -> & -> & _ & ->).
  repeat split. by apply prefix_app_r.
Qed.

Lemma state_empty_Reset s : state_empty (Session.Reset s).
Proof. by repeat split. Qed.

(** A call of the backend that loses stored state of a session is a Setup
    with clean = true for the id of the session, or the Terminate of a client
    bound to the session that connected with clean = true. *)
Lemma step_state_kept w o a s s' :
  is_backend_call o = true →
  heap w !! a = Some s →
  heap (step w o) !! a = Some s' →
  state_kept s s'
  ∨ (∃ c id, o = OpSetup c id true ∧ sessions (backend w) !! id = Some a)
  ∨ (∃ c, o = OpTerminate c ∧ bound_session c w = Some a
          ∧ connected_clean c w = Some true).
Proof.
  intros Hcall Hs.
  destruct o as [c id clean|c t|c t|c msg|c|i|c sub|c flt];
    try done; cbn [step].
  - Setup_cases id w Hid Hreg; cbn [snd].
    + simpl. rewrite lookup_app_l by by eapply lookup_lt_Some.
      rewrite Hs. intros [= <-]. left. apply state_kept_refl.
    + destruct (decide (sess = a)) as [->|Hne].
      * destruct clean.
        -- intros _. right. left. by exists c, id.
        -- simpl. rewrite list_lookup_alter_eq, Hs. intros [= <-]. left.
           apply state_kept_set_currentClient.
      * destruct clean; simpl; rewrite !list_lookup_alter_ne by done;
          rewrite Hs; intros [= <-]; left; apply state_kept_refl.
    + simpl. rewrite lookup_app_l by by eapply lookup_lt_Some.
      rewrite Hs. intros [= <-]. left. apply state_kept_refl.
  - simpl. rewrite Hs. intros [= <-]. left. apply state_kept_refl.
  - simpl. rewrite Hs. intros [= <-]. left. apply state_kept_refl.
  - rewrite Publish_heap_lookup.
    rewrite Hs. intros [= <-]. left. apply state_kept_queued.
  - rewrite Terminate_unfold. cbn [snd].
    destruct (as_session (ctx_Get c "session" w)) as [b|] eqn:Hb.
    + destruct (decide (b = a)) as [->|Hne].
      * destruct (as_bool (ctx_Get c "clean" w)) as [[]|] eqn:Hc.
        -- intros _. right. right. by exists c.
        -- simpl. rewrite list_lookup_alter_eq, Hs. intros [= <-]. left.
           apply state_kept_set_currentClient.
        -- simpl. rewrite list_lookup_alter_eq, Hs. intros [= <-]. left.
           apply state_kept_set_currentClient.
      * destruct (as_bool (ctx_Get c "clean" w)) as [[]|]; simpl;
          rewrite !list_lookup_alter_ne by done;
          rewrite Hs; intros [= <-]; left; apply state_kept_refl.
    + simpl. rewrite Hs. intros [= <-]. left. apply state_kept_refl.
Qed.

(** C4 (as amended): the first Setup for a non-empty id creates the
    session and stores it under the id; no step removes or redirects an
    entry of the registry; Setup with clean = true for an id with a stored
    session leaves that same session in the registry with nothing stored in
    it: no subscription, no packet and no missed message; Setup with
    clean = false keeps what is stored; and a call of the backend loses stored
    state of a session only if it is a Setup with clean = true for its id or
    the Terminate of a client bound to it whose latest Setup had
    clean = true. *)
Theorem session_lifecycle :
  (∀ client id clean w,
     id ≠ "" → sessions (backend w) !! id = None →
     let sess := length (heap w) in
     let w' := (Setup client id clean w).2 in
     (Setup client id clean w).1 = (sess, false, None)
     ∧ heap w !! sess = None
     ∧ sessions (backend w') !! id = Some sess
     ∧ heap w' !! sess
       = Some (Session.set_currentClient (Some client)
                 Session.NewMemorySession))
  ∧ (∀ w o id sess,
       sessions (backend w) !! id = Some sess →
       sessions (backend (step w o)) !! id = Some sess)
  ∧ (∀ client id w sess s,
       id ≠ "" → sessions (backend w) !! id = Some sess →
       heap w !! sess = Some s →
       let w' := (Setup client id true w).2 in
       (Setup client id true w).1 = (sess, true, None)
       ∧ sessions (backend w') !! id = Some sess
       ∧ ∃ s', heap w' !! sess = Some s' ∧ state_empty s')
  ∧ (∀ client id w sess s,
       id ≠ "" → sessions (backend w) !! id = Some sess →
       heap w !! sess = Some s →
       ∃ s', heap (Setup client id false w).2 !! sess = Some s'
             ∧ state_kept s s')
  ∧ (∀ w o a s s',
       is_backend_call o = true →
       heap w !! a = Some s →
       heap (step w o) !! a = Some s' →
       ¬ state_kept s s' →
       (∃ c id, o = OpSetup c id true ∧ sessions (backend w) !! id = Some a)
       ∨ (∃ c, o = OpTerminate c ∧ bound_session c w = Some a
               ∧ connected_clean c w = Some true))
  ∧ (∀ tr c,
       connected_clean c (run tr init) = Some true →
       last_Setup c tr = Some true).
Proof.
  split_and!.
  - intros client id clean w Hid Hs sess w'. unfold w', sess.
    rewrite Setup_fresh by done. cbn [fst snd]. split_and!.
    + done.
    + by apply lookup_ge_None_2.
    + simpl. by rewrite lookup_insert_eq.
    + simpl. by rewrite lookup_app_r, Nat.sub_diag.
  - intros w o id sess. apply step_sessions_mono.
  - intros client id w sess s Hid Hs Hh w'. unfold w'.
    rewrite (Setup_found _ _ _ _ sess) by done. cbn [fst snd].
    split_and!; [done|done|]. simpl.
    rewrite !list_lookup_alter_eq, Hh. simpl. eexists. split; [done|].
    apply state_empty_Reset.
  - intros client id w sess s Hid Hs Hh.
    rewrite (Setup_found _ _ _ _ sess) by done. simpl.
    rewrite list_lookup_alter_eq, Hh. simpl. eexists. split; [done|].
    apply state_kept_set_currentClient.
  - intros w o a s s' Hcall Hs Hs' Hlost.
    by destruct (step_state_kept w o a s s' Hcall Hs Hs') as [?|?].
  - intros tr c Hc. unfold connected_clean in Hc.
    destruct (ctx_along_run tr c) as [Hclean _]. rewrite Hclean in Hc.
    by destruct (last_Setup c tr) as [[]|].
Qed.

Lemma session_lifecycle_witness :
  (∃ s', heap (Setup 2 "a" true (run offline_run init)).2 !! 0 = Some s'
         ∧ state_empty s')
  ∧ last_Setup 1 clean_run = Some true.
Proof.
  destruct session_lifecycle as (_ & _ & Hclean & _ & _ & Hflag). split.
  - refine (proj2 (proj2 (Hclean 2 "a" (run offline_run init) 0
                            (mkMemorySession {["t" := 1%N; "u" := 0%N]} [] []
                               1%N [] None) _ _ _))).
    + done.
    + by vm_compute.
    + by vm_compute.
  - apply Hflag. by vm_compute.
Defined.

(** C4 (as stated) fails: the Terminate of a client that connected with
    clean = true discards what its session stores, and it is not a Setup. *)
Lemma state_destroyed_by_Terminate : ¬ destroyed_only_by_clean_Setup.
Proof.
  intros H.
  destruct (H clean_run (OpTerminate 1) 0
              (mkMemorySession {["t" := 1%N]} [] [] 1%N [] (Some 1))
              (mkMemorySession ∅ [] [] 1%N [] None))
    as (c & id & Ho).
  - done.
  - by vm_compute.
  - by vm_compute.
  - intros (Hsubs & _). vm_compute in Hsubs. discriminate Hsubs.
  - discriminate Ho.
Qed.

(** ** Reachable worlds and scenarios *)

(** The registry of every world reachable from the new backend points
    into the heap. *)
Lemma reachable_registry_live tr : registry_live (run tr init).
Proof. apply run_registry_live, init_registry_live. Qed.

(** The replay spawned by Setup, once it runs, sends the client the missed
    messages of the session, oldest first, and leaves none behind. *)
Lemma run_goroutine_replays i client sess s w :
  goroutines w !! i = Some (client, sess) →
  heap w !! sess = Some s →
  calls (run_goroutine i w)
  = calls w ++ (CallPublish client <$> missedQueue s)
  ∧ missedQueue <$> heap (run_goroutine i w) !! sess = Some [].
Proof.
  intros Hg Hh. unfold run_goroutine. rewrite Hg, replay_unfold. simpl.
  rewrite Hh. simpl. split; [done|].
  rewrite list_lookup_insert_eq by by eapply lookup_lt_Some. done.
Qed.

(** Wildcard routing: client 1 subscribes to "foo/+", client 2 publishes on
    "foo/bar", client 1 is sent the message. *)
Example scenario_wildcard :
  let msg := mkMessage "foo/bar" ["t"%byte] 0 false in
  inbox 1 (run [OpSetup 1 "" true; OpSubscribe 1 "foo/+";
                OpSetup 2 "" true; OpPublish 2 msg] init) = [msg].
Proof. by vm_compute. Qed.

(** Retained clear: a retained message is returned to a new subscriber
    until an empty retained message is published on its topic. *)
Example scenario_retained_clear :
  let m1 := mkMessage "test" ["1"%byte] 0 true in
  let m0 := mkMessage "test" [] 0 true in
  (Subscribe 2 "test" (run [OpPublish 1 m1] init)).1 = ([m1], None)
  ∧ (Subscribe 3 "test" (run [OpPublish 1 m1; OpPublish 1 m0] init)).1
    = ([], None).
Proof. by vm_compute. Qed.

(** Persistent session replay: the session of "a" goes offline with a QoS 1
    subscription to "t"; a message published on "t" is queued in it; when
    "a" connects again the session is resumed and the replay sends the
    message to the new client. *)
Example scenario_offline_replay :
  let msg := mkMessage "t" ["t"%byte] 1 false in
  let w := run (offline_run ++ [OpPublish 2 msg]) init in
  missedQueue <$> heap w !! 0 = Some [msg]
  ∧ (Setup 3 "a" false w).1 = (0, true, None)
  ∧ inbox 3 (run_goroutine 0 (Setup 3 "a" false w).2) = [msg]
  ∧ offlineQueue (backend (Setup 3 "a" false w).2) = [].
Proof. by vm_compute. Qed.

(** ** helpers.go *)

Lemma Ctx_Get_Set key key' v (c : gmap string iface) :
  Ctx.Get key (Ctx.Set_ key' v c)
  = if decide (key' = key) then v else Ctx.Get key c.
Proof.
  unfold Ctx.Get, Ctx.Set_. case_decide as Hk.
  - subst. by rewrite lookup_insert_eq.
  - by rewrite lookup_insert_ne.
Qed.

Lemma Ctx_last_Set_snoc key l kv :
  Ctx.last_Set key (l ++ [kv])
  = if decide (kv.1 = key) then Some kv.2 else Ctx.last_Set key l.
Proof.
  unfold Ctx.last_Set. rewrite filter_app, filter_cons, filter_nil.
  case_decide.
  - rewrite fmap_app. change ([kv].*2) with [kv.2]. by rewrite last_snoc.
  - by rewrite app_nil_r.
Qed.

(** X1: after any sequence of Set calls on a Context, Get answers the value
    of the latest Set of the key, and what the Context held before when the
    key was not set in the sequence; on a new Context that is the nil
    interface.  The context of a client in the world is read and written
    the same way. *)
Theorem Context_Get_latest_Set (l : list (string * iface))
    (c : gmap string iface) (key : string) :
  Ctx.Get key (Ctx.Sets l c)
  = match Ctx.last_Set key l with
    | Some v => v
    | None => Ctx.Get key c
    end
  ∧ Ctx.Get key (Ctx.Sets l Ctx.NewContext) = default INil (Ctx.last_Set key l)
  ∧ (∀ client k v w,
       ctx_Get client key (ctx_Set client k v w)
       = Ctx.Get key (Ctx.Set_ k v (default ∅ (contexts w !! client)))).
Proof.
  assert (∀ c0 : gmap string iface,
            Ctx.Get key (Ctx.Sets l c0)
            = match Ctx.last_Set key l with
              | Some v => v
              | None => Ctx.Get key c0
              end) as Hmain.
  { intros c0. induction l as [|kv l IH] using rev_ind; [done|].
    unfold Ctx.Sets in *. rewrite foldl_app. simpl.
    rewrite Ctx_Get_Set, Ctx_last_Set_snoc. by case_decide. }
  split_and!.
  - apply Hmain.
  - rewrite Hmain. by destruct (Ctx.last_Set key l).
  - intros client k v w. unfold ctx_Get, ctx_Set. simpl.
    by rewrite lookup_insert_eq.
Qed.

(** X2: after any sequence of set calls on a state, get answers the value
    set last, and the initial value when there was no call. *)
Theorem state_get_latest_set (init : byte) (l : list byte) :
  State.get (foldl (λ s b, State.set b s) (State.newState init) l)
  = default init (last l).
Proof.
  induction l as [|b l IH] using rev_ind; [done|].
  rewrite foldl_app, last_snoc. done.
Qed.

Lemma FakeClient_receive_all c l fc :
  fc_in (foldl (FakeClient.receive c) fc l)
  = fc_in fc
    ++ omap (λ e, match e with
                  | CallPublish c' msg =>
                      if decide (c' = c) then Some msg else None
                  | _ => None
                  end) l
  ∧ fc_ctx (foldl (FakeClient.receive c) fc l) = fc_ctx fc.
Proof.
  revert fc. induction l as [|e l IH]; intros fc.
  - simpl. by rewrite app_nil_r.
  - cbn [foldl]. destruct (IH (FakeClient.receive c fc e)) as [-> ->].
    destruct e as [c' msg|c' clean]; simpl; case_decide; simpl;
      rewrite <-?app_assoc; done.
Qed.

Lemma Publish_calls client msg w :
  calls (Publish client msg w).2
  = calls w ++ ((λ c, CallPublish c msg)
                  <$> omap as_client
                        (Tree.Match (Topic msg) (queue (backend w)))).
Proof.
  rewrite Publish_unfold. destruct (Retain msg); [case_decide|]; reflexivity.
Qed.

Lemma inbox_app c w l :
  inbox c (set_calls (calls w ++ l) w)
  = inbox c w
    ++ omap (λ e, match e with
                  | CallPublish c' msg =>
                      if decide (c' = c) then Some msg else None
                  | _ => None
                  end) l.
Proof. unfold inbox. simpl. by rewrite omap_app. Qed.

Lemma inbox_calls c w w' : calls w' = calls w → inbox c w' = inbox c w.
Proof. unfold inbox. by intros ->. Qed.

Lemma inbox_of_publishes c msg cs :
  omap (λ e, match e with
             | CallPublish c' msg =>
                 if decide (c' = c) then Some msg else None
             | _ => None
             end) ((λ c', CallPublish c' msg) <$> cs)
  = replicate (length (filter (λ c', c' = c) cs)) msg.
Proof.
  induction cs as [|c' cs IH]; simpl; [done|].
  rewrite filter_cons. case_decide; simpl; [f_equal|]; exact IH.
Qed.

(** What a client is sent by one Publish. *)
Lemma Publish_inbox client msg w c :
  inbox c (Publish client msg w).2
  = inbox c w
    ++ replicate (client_occurrences c
                    (Tree.Match (Topic msg) (queue (backend w)))) msg.
Proof.
  unfold inbox. rewrite Publish_calls, omap_app. f_equal.
  apply inbox_of_publishes.
Qed.

(** X3: a fakeClient standing for a client of the backend holds in its
    [in] slice, after the calls the backend has made, the messages it
    held before followed by the messages the backend sent to that client, in
    the order of the calls; Close calls and calls on other clients leave it
    as it is, its context is never touched, and Publish always answers
    true; for a new fake client the slice is exactly what the backend sent
    to the client.  One Publish of the backend extends the slice by the
    message, once per matched subscription of the client. *)
Theorem fakeClient_receives (c : Client) (fc : fakeClient) (w : World) :
  fc_in (FakeClient.after c fc w) = fc_in fc ++ inbox c w
  ∧ FakeClient.Context (FakeClient.after c fc w) = FakeClient.Context fc
  ∧ (∀ msg fc', (FakeClient.Publish msg fc').1 = true)
  ∧ (∀ uuid,
       fc_in (FakeClient.after c (FakeClient.newFakeClient uuid) w)
       = inbox c w)
  ∧ (∀ client msg,
       fc_in (FakeClient.after c fc (Publish client msg w).2)
       = fc_in (FakeClient.after c fc w)
         ++ replicate (client_occurrences c
                         (Tree.Match (Topic msg) (queue (backend w)))) msg).
Proof.
  assert (∀ w0, fc_in (FakeClient.after c fc w0) = fc_in fc ++ inbox c w0)
    as Hin.
  { intros w0. unfold FakeClient.after, inbox.
    by destruct (FakeClient_receive_all c (calls w0) fc) as [-> _]. }
  split_and!.
  - apply Hin.
  - unfold FakeClient.after, FakeClient.Context.
    by destruct (FakeClient_receive_all c (calls w) fc) as [_ ->].
  - done.
  - intros uuid. unfold FakeClient.after, inbox.
    by destruct (FakeClient_receive_all c (calls w)
                   (FakeClient.newFakeClient uuid)) as [-> _].
  - intros client msg. by rewrite !Hin, Publish_inbox, app_assoc.
Qed.

(** ** The broker facade *)

(** X4: the broker made by New waits ten seconds for CONNECT, has no
    logger, and its backend is a new one: it lets every user in whatever
    the password, holds no retained message for any subscriber, and a
    Publish on it calls no client. *)
Theorem New_broker :
  ConnectTimeout New = 10000000000%Z
  ∧ Logger New = None
  ∧ (∀ client user password,
       Authenticate (Backend New) client user password = (true, None))
  ∧ (∀ client topic, (Subscribe client topic (world_of New)).1 = ([], None))
  ∧ (∀ client msg, calls (Publish client msg (world_of New)).2 = []).
Proof.
  split_and!; try done.
  intros client msg. by rewrite Publish_calls.
Qed.

(** ** Subscribe and the retained store *)

Lemma elem_of_Search flt tr v :
  v ∈ Tree.Search flt tr
  ↔ ∃ topic, (topic, v) ∈ tr ∧ Tree.topic_matches flt topic = true.
Proof.
  unfold Tree.Search. rewrite list_elem_of_fmap. split.
  - intros ([t v'] & -> & [Hm Hin]%list_elem_of_filter). by exists t.
  - intros (t & Hin & Hm). exists (t, v). split; [done|].
    by apply list_elem_of_filter.
Qed.

Lemma elem_of_Match topic tr v :
  v ∈ Tree.Match topic tr
  ↔ ∃ flt, (flt, v) ∈ tr ∧ Tree.topic_matches flt topic = true.
Proof.
  unfold Tree.Match. rewrite list_elem_of_fmap. split.
  - intros ([f v'] & -> & [Hm Hin]%list_elem_of_filter). by exists f.
  - intros (f & Hin & Hm). exists (f, v). split; [done|].
    by apply list_elem_of_filter.
Qed.

(** The entries of the retained store of a reachable world. *)
Lemma retained_entry tr topic v :
  (topic, v) ∈ retained (backend (run tr init))
  ↔ ∃ msg, v = IMessage msg
           ∧ last_retained topic (published tr) = Some msg
           ∧ Payload msg ≠ [].
Proof.
  rewrite <-elem_of_Get, retained_along_run.
  destruct (last_retained topic (published tr)) as [m|].
  - case_decide as Hp.
    + rewrite list_elem_of_singleton. split.
      * intros ->. exists m. split_and!; [done|done|].
        intros Hnil. rewrite Hnil in Hp. simpl in Hp. lia.
      * by intros (m' & -> & [= ->] & _).
    + split; [by intros ?%elem_of_nil|].
      intros (m' & -> & [= ->] & Hne). destruct (Payload m'); [done|].
      simpl in Hp. lia.
  - split; [by intros ?%elem_of_nil|]. by intros (m' & _ & ? & _).
Qed.

Lemma last_retained_Some topic msgs msg :
  last_retained topic msgs = Some msg →
  Retain msg = true ∧ Topic msg = topic ∧ msg ∈ msgs.
Proof.
  unfold last_retained. intros Hl%last_Some_elem_of.
  apply list_elem_of_filter in Hl as [[? ?] ?]. done.
Qed.

(** X5: in every world reachable from a new backend, Subscribe returns
    exactly the retained messages whose topic the filter matches: a message
    is returned if and only if it is the last message published on its
    topic with Retain set, has a non-empty payload, and its topic matches
    the filter.  Every message returned was published with Retain set. *)
Theorem Subscribe_returns_retained (tr : list op) (client : Client)
    (flt : string) (msg : Message) :
  (msg ∈ (Subscribe client flt (run tr init)).1.1
   ↔ Tree.topic_matches flt (Topic msg) = true
     ∧ last_retained (Topic msg) (published tr) = Some msg
     ∧ Payload msg ≠ [])
  ∧ (msg ∈ (Subscribe client flt (run tr init)).1.1 →
     Retain msg = true ∧ msg ∈ published tr).
Proof.
  assert (msg ∈ (Subscribe client flt (run tr init)).1.1
          ↔ Tree.topic_matches flt (Topic msg) = true
            ∧ last_retained (Topic msg) (published tr) = Some msg
            ∧ Payload msg ≠ []) as Hiff.
  { cbn [Subscribe fst snd set_queue backend retained].
    rewrite list_elem_of_omap. split.
    - intros (v & (topic & Hin & Hm)%elem_of_Search & Hv).
      destruct v; try done. injection Hv as ->.
      apply retained_entry in Hin as (m & [= <-] & Hl & Hp).
      destruct (last_retained_Some _ _ _ Hl) as (_ & <- & _). done.
    - intros (Hm & Hl & Hp). exists (IMessage msg). split; [|done].
      apply elem_of_Search. exists (Topic msg). split; [|done].
      apply retained_entry. by exists msg. }
  split; [done|].
  intros (_ & Hl & _)%Hiff.
  by destruct (last_retained_Some _ _ _ Hl) as (? & _ & ?).
Qed.

Lemma Subscribe_returns_retained_witness :
  Retain (mkMessage "a/b" ["x"%byte] 1 true) = true
  ∧ mkMessage "a/b" ["x"%byte] 1 true
    ∈ published [OpPublish 1 (mkMessage "a/b" ["x"%byte] 1 true)].
Proof.
  refine (proj2 (Subscribe_returns_retained
                   [OpPublish 1 (mkMessage "a/b" ["x"%byte] 1 true)]
                   2 "a/+" (mkMessage "a/b" ["x"%byte] 1 true)) _).
  apply (bool_decide_unpack _). by vm_compute.
Defined.

(** ** Subscribe, Unsubscribe and delivery *)

Lemma client_occurrences_pos c vs :
  IClient c ∈ vs → 0 < client_occurrences c vs.
Proof.
  intros Hin. unfold client_occurrences.
  assert (c ∈ filter (λ c', c' = c) (omap as_client vs)) as Hc.
  { apply list_elem_of_filter. split; [done|].
    apply list_elem_of_omap. by exists (IClient c). }
  destruct (filter _ _); [by apply elem_of_nil in Hc | simpl; lia].
Qed.

Lemma client_occurrences_0 c vs :
  IClient c ∉ vs → client_occurrences c vs = 0.
Proof.
  intros Hin. unfold client_occurrences.
  induction vs as [|v vs IH]; [done|].
  apply not_elem_of_cons in Hin as [Hv Hvs].
  destruct v; simpl; try by apply IH.
  rewrite filter_cons. case_decide; [congruence|]. by apply IH.
Qed.

(** X6: once a client is subscribed to a filter, a Publish on a topic the
    filter matches sends the message to that client, at least once and
    after everything it was sent before, whoever the publisher is, the
    subscriber itself included. *)
Theorem Subscribe_then_Publish_delivers (client publisher : Client)
    (flt : string) (msg : Message) (w : World) :
  Tree.topic_matches flt (Topic msg) = true →
  ∃ n, 0 < n
       ∧ inbox client (Publish publisher msg (Subscribe client flt w).2).2
         = inbox client w ++ replicate n msg.
Proof.
  intros Hm. eexists. split; [|by rewrite Publish_inbox].
  apply client_occurrences_pos, elem_of_Match. exists flt. split; [|done].
  cbn [Subscribe snd set_queue backend queue]. apply elem_of_Add. by right.
Qed.

Lemma Subscribe_then_Publish_delivers_witness :
  ∃ n, 0 < n
       ∧ inbox 1 (Publish 1 (mkMessage "test" ["t"%byte] 0 false)
                    (Subscribe 1 "test" init).2).2
         = inbox 1 init ++ replicate n (mkMessage "test" ["t"%byte] 0 false).
Proof.
  apply (Subscribe_then_Publish_delivers 1 1 "test"). by vm_compute.
Defined.

Lemma set_queue_id w : set_queue (queue (backend w)) w = w.
Proof. by destruct w as [[] ? ? ? ?]. Qed.

Lemma filter_all_true {A} (P : A → Prop) `{∀ x, Decision (P x)} (l : list A) :
  (∀ x, x ∈ l → P x) → filter P l = l.
Proof.
  induction l as [|x l IH]; intros Hall; [done|].
  rewrite filter_cons, decide_True by (apply Hall; left).
  f_equal. apply IH. intros y Hy. apply Hall. by right.
Qed.

(** X7: Unsubscribe removes the subscription of the client to that
    filter and no other entry of the queue; for a client not subscribed to
    the filter it changes nothing, and Subscribe followed by Unsubscribe
    of the same filter leaves the whole world as it was. *)
Theorem Subscribe_Unsubscribe_round_trip (client : Client) (topic : string)
    (w : World) :
  (∀ e, e ∈ queue (backend (Unsubscribe client topic w).2)
        ↔ e ∈ queue (backend w) ∧ e ≠ (topic, IClient client))
  ∧ ((topic, IClient client) ∉ queue (backend w) →
     (Unsubscribe client topic w).2 = w
     ∧ (Unsubscribe client topic (Subscribe client topic w).2).2 = w).
Proof.
  split.
  - intros e. cbn [Unsubscribe snd set_queue backend queue].
    apply elem_of_Remove.
  - intros Hnin.
    assert (Tree.Remove topic (IClient client) (queue (backend w))
            = queue (backend w)) as Hrem.
    { unfold Tree.Remove. apply filter_all_true.
      intros e He ->. done. }
    split.
    + unfold Unsubscribe. cbn [snd]. by rewrite Hrem, set_queue_id.
    + unfold Unsubscribe, Subscribe. cbn [snd set_queue backend queue].
      unfold Tree.Add. rewrite decide_False by done.
      unfold Tree.Remove. rewrite filter_app, filter_cons, filter_nil.
      rewrite decide_False by (intros Hne; by apply Hne).
      rewrite app_nil_r. fold (Tree.Remove topic (IClient client)
                                 (queue (backend w))).
      rewrite Hrem. by destruct w as [[] ? ? ? ?].
Qed.

Lemma Subscribe_Unsubscribe_round_trip_witness :
  (Unsubscribe 1 "a/#" connected_world).2 = connected_world
  ∧ (Unsubscribe 1 "a/#" (Subscribe 1 "a/#" connected_world).2).2
    = connected_world.
Proof.
  refine (proj2 (Subscribe_Unsubscribe_round_trip 1 "a/#" connected_world) _).
  apply (bool_decide_unpack _). by vm_compute.
Defined.

(** X8: subscribing a client again to a filter it is subscribed to
    changes nothing, so a Publish reaches it as often as after the first
    Subscribe. *)
Theorem Subscribe_idempotent (client publisher : Client) (topic : string)
    (msg : Message) (w : World) :
  (Subscribe client topic (Subscribe client topic w).2).2
  = (Subscribe client topic w).2
  ∧ (Subscribe client topic (Subscribe client topic w).2).1
    = (Subscribe client topic w).1
  ∧ inbox client
      (Publish publisher msg
         (Subscribe client topic (Subscribe client topic w).2).2).2
    = inbox client (Publish publisher msg (Subscribe client topic w).2).2.
Proof.
  assert (Tree.Add topic (IClient client)
            (Tree.Add topic (IClient client) (queue (backend w)))
          = Tree.Add topic (IClient client) (queue (backend w))) as Hadd.
  { unfold Tree.Add at 1. rewrite decide_True; [done|].
    apply elem_of_Add. by right. }
  assert ((Subscribe client topic (Subscribe client topic w).2).2
          = (Subscribe client topic w).2) as Heq.
  { unfold Subscribe. cbn [snd set_queue backend queue Logins retained
                             offlineQueue sessions heap contexts calls
                             goroutines].
    by rewrite Hadd. }
  split_and!; [done|done|by rewrite Heq].
Qed.

(** ** Terminate *)

(** The deliveries of a Publish to a client count the entries of the queue
    that hold the client under a matching filter. *)
Lemma client_occurrences_count c topic (q : list (string * iface)) :
  client_occurrences c (Tree.Match topic q)
  = length (filter (λ e, Tree.topic_matches e.1 topic = true
                         ∧ e.2 = IClient c) q).
Proof.
  unfold client_occurrences, Tree.Match.
  induction q as [|[f0 v0] q IH]; [done|].
  rewrite !filter_cons. cbn [fst snd].
  destruct (decide (Tree.topic_matches f0 topic = true)) as [Hm|Hm].
  - rewrite fmap_cons. cbn [snd].
    destruct (decide (v0 = IClient c)) as [->|Hv].
    + rewrite decide_True by done. simpl. rewrite filter_cons.
      rewrite decide_True by done. simpl. f_equal. exact IH.
    + rewrite decide_False by tauto.
      destruct v0 as [| | |c0| |]; simpl; try exact IH.
      rewrite filter_cons, decide_False by congruence. exact IH.
  - rewrite decide_False by tauto. exact IH.
Qed.

Lemma Terminate_frame client w :
  let w' := (Terminate client w).2 in
  queue (backend w') = Tree.Clear (IClient client) (queue (backend w))
  ∧ calls w' = calls w
  ∧ goroutines w' = goroutines w
  ∧ Logins (backend w') = Logins (backend w).
Proof.
  rewrite Terminate_unfold. cbn [snd].
  destruct (as_session _) as [a|]; [|done].
  by destruct (as_bool _) as [[]|].
Qed.

(** What Terminate does to the sessions of the heap. *)
Lemma Terminate_heap_lookup client w b :
  heap (Terminate client w).2 !! b
  = match bound_session client w with
    | Some a =>
        if decide (a = b) then
          (λ s, let s1 := Session.set_currentClient None s in
                match connected_clean client w with
                | Some true => Session.Reset s1
                | _ => s1
                end) <$> heap w !! b
        else heap w !! b
    | None => heap w !! b
    end.
Proof.
  rewrite Terminate_unfold. cbn [snd]. unfold bound_session, connected_clean.
  destruct (as_session _) as [a|]; [|done].
  case_decide as Hab.
  - subst b. destruct (as_bool _) as [[]|]; simpl;
      rewrite !list_lookup_alter_eq; by destruct (heap w !! a).
  - destruct (as_bool _) as [[]|]; simpl;
      by rewrite !list_lookup_alter_ne.
Qed.

(** X9: Terminate removes the client from every filter of the queue and
    leaves the subscriptions of the other clients in place; it calls no
    client and starts no goroutine; a Publish after it sends the client
    nothing, and the other clients what they would have been sent. *)
Theorem Terminate_unsubscribes (client : Client) (w : World) :
  let w' := (Terminate client w).2 in
  (∀ flt, (flt, IClient client) ∉ queue (backend w'))
  ∧ (∀ e, e.2 ≠ IClient client →
          e ∈ queue (backend w') ↔ e ∈ queue (backend w))
  ∧ calls w' = calls w
  ∧ goroutines w' = goroutines w
  ∧ (∀ publisher msg, inbox client (Publish publisher msg w').2
                      = inbox client w)
  ∧ (∀ publisher msg c,
       c ≠ client →
       inbox c (Publish publisher msg w').2
       = inbox c (Publish publisher msg w).2).
Proof.
  intros w'. destruct (Terminate_frame client w) as (Hq & Hc & Hg & _).
  fold w' in Hq, Hc, Hg. split_and!; try done.
  - intros flt. rewrite Hq. intros [_ Hne]%elem_of_Clear. by apply Hne.
  - intros e Hne. rewrite Hq, elem_of_Clear. tauto.
  - intros publisher msg. rewrite Publish_inbox, Hq.
    rewrite client_occurrences_0, app_nil_r; [by apply inbox_calls|].
    intros (flt & [_ Hne]%elem_of_Clear & _)%elem_of_Match. by apply Hne.
  - intros publisher msg c Hne. rewrite !Publish_inbox, Hq.
    rewrite (inbox_calls c w w' Hc). do 2 f_equal.
    rewrite !client_occurrences_count. unfold Tree.Clear.
    rewrite list_filter_filter. f_equal. apply list_filter_iff.
    intros [f v]. simpl. split; [tauto|].
    intros [? ->]. split_and!; [done|done|congruence].
Qed.

(** X13: Terminate of a client with a bound session leaves that session
    without a current client, so that the next Setup for the id of the
    session closes nobody. *)
Theorem Terminate_releases_session (client : Client) (w : World) (a : addr) :
  bound_session client w = Some a →
  currentClient_at a (Terminate client w).2 = None
  ∧ (∀ client' id clean,
       id ≠ "" → sessions (backend w) !! id = Some a →
       calls (Setup client' id clean (Terminate client w).2).2 = calls w).
Proof.
  intros Hb.
  assert (currentClient_at a (Terminate client w).2 = None) as Hcur.
  { unfold currentClient_at. rewrite Terminate_heap_lookup, Hb.
    rewrite decide_True by done. destruct (heap w !! a); [|done].
    simpl. by destruct (connected_clean client w) as [[]|]. }
  split; [done|].
  intros client' id clean Hid Hs.
  rewrite (Setup_found _ _ _ _ a); [|done|by rewrite Terminate_sessions].
  cbn [snd]. simpl. rewrite Hcur, app_nil_r.
  by destruct (Terminate_frame client w) as (_ & -> & _).
Qed.

Lemma Terminate_releases_session_witness :
  currentClient_at 0 (Terminate 1 connected_world).2 = None
  ∧ calls (Setup 2 "a" false (Terminate 1 connected_world).2).2
    = calls connected_world.
Proof.
  destruct (Terminate_releases_session 1 connected_world 0) as [H1 H2].
  - by vm_compute.
  - split; [exact H1|]. apply H2; by vm_compute.
Defined.

(** X14: what Terminate does to the sessions.  For a client with no
    session in its context it only clears the queue.  Otherwise the session
    of the client loses its current client and, when the client connected
    with clean = true, everything it stores, while it keeps what it stores
    when the client did not; no other session changes. *)
Theorem Terminate_session_state (client : Client) (w : World) :
  (bound_session client w = None →
   Terminate client w
   = (None, set_queue (Tree.Clear (IClient client) (queue (backend w))) w))
  ∧ (∀ a s,
       bound_session client w = Some a → heap w !! a = Some s →
       ∃ s', heap (Terminate client w).2 !! a = Some s'
             ∧ currentClient s' = None
             ∧ (connected_clean client w = Some true → state_empty s')
             ∧ (connected_clean client w ≠ Some true → state_kept s s'))
  ∧ (∀ b, bound_session client w ≠ Some b →
          heap (Terminate client w).2 !! b = heap w !! b).
Proof.
  split_and!.
  - intros Hb. rewrite Terminate_unfold. unfold bound_session in Hb.
    by rewrite Hb.
  - intros a s Hb Hs. rewrite Terminate_heap_lookup, Hb, decide_True by done.
    rewrite Hs. simpl. eexists. split; [done|].
    destruct (connected_clean client w) as [[]|]; split_and!; try done;
      intros _;
      first [apply state_empty_Reset | apply state_kept_set_currentClient].
  - intros b Hb. rewrite Terminate_heap_lookup.
    destruct (bound_session client w) as [a|]; [|done].
    rewrite decide_False; [done|]. intros ->. by apply Hb.
Qed.

Lemma Terminate_session_state_witness :
  Terminate 7 connected_world
  = (None, set_queue (Tree.Clear (IClient 7) (queue (backend connected_world)))
             connected_world)
  ∧ ∃ s', heap (Terminate 1 (run clean_run init)).2 !! 0 = Some s'
          ∧ currentClient s' = None
          ∧ (connected_clean 1 (run clean_run init) = Some true →
             state_empty s')
          ∧ (connected_clean 1 (run clean_run init) ≠ Some true →
             state_kept (mkMemorySession {["t" := 1%N]} [] [] 1%N []
                           (Some 1)) s').
Proof.
  destruct (Terminate_session_state 7 connected_world) as (H1 & _ & _).
  destruct (Terminate_session_state 1 (run clean_run init)) as (_ & H2 & _).
  split.
  - apply H1. by vm_compute.
  - apply H2; by vm_compute.
Defined.

(** ** The registry along a run *)

Lemma run_sessions_mono tr w id a :
  sessions (backend w) !! id = Some a →
  sessions (backend (run tr w)) !! id = Some a.
Proof.
  revert w. induction tr as [|o tr IH]; intros w Hs; [done|].
  simpl. apply IH. by apply step_sessions_mono.
Qed.

Lemma Setup_registers client id clean w :
  id ≠ "" →
  sessions (backend (Setup client id clean w).2) !! id
  = Some (Setup client id clean w).1.1.1.
Proof.
  intros Hid0. Setup_cases id w Hid Hs; [done| |]; cbn [fst snd]; simpl.
  - done.
  - by rewrite lookup_insert_eq.
Qed.

Lemma step_registry_injective w o :
  registry_live w → registry_injective w → registry_injective (step w o).
Proof.
  intros Hlive Hinj id1 id2 a H1 H2.
  destruct (step_sessions w o) as [Heq|(id' & Hn & Heq & _)];
    rewrite Heq in H1, H2; [by eapply Hinj|].
  destruct (decide (id' = id1)) as [Heq1|Hne1];
    destruct (decide (id' = id2)) as [Heq2|Hne2]; subst; try done.
  - rewrite lookup_insert_eq in H1. injection H1 as <-.
    rewrite lookup_insert_ne in H2 by done.
    specialize (Hlive id2 _ H2). simpl in Hlive. lia.
  - rewrite lookup_insert_eq in H2. injection H2 as <-.
    rewrite lookup_insert_ne in H1 by done.
    specialize (Hlive id1 _ H1). simpl in Hlive. lia.
  - rewrite lookup_insert_ne in H1, H2 by done. by eapply Hinj.
Qed.

Lemma reachable_registry_injective tr : registry_injective (run tr init).
Proof.
  induction tr as [|o tr IH] using rev_ind.
  - intros id1 id2 a H1. done.
  - rewrite run_snoc. apply step_registry_injective; [|done].
    apply reachable_registry_live.
Qed.

(** X10: in every world reachable from a new backend no two client ids
    share a stored session, and the sessions Setup returns for two
    different non-empty ids are different, whenever the two calls are
    made. *)
Theorem sessions_of_different_ids_differ (tr tr' : list op)
    (c1 c2 : Client) (id1 id2 : string) (clean1 clean2 : bool) :
  registry_injective (run tr init)
  ∧ (id1 ≠ "" → id2 ≠ "" → id1 ≠ id2 →
     let w1 := (Setup c1 id1 clean1 (run tr init)).2 in
     (Setup c1 id1 clean1 (run tr init)).1.1.1
     ≠ (Setup c2 id2 clean2 (run tr' w1)).1.1.1).
Proof.
  split; [apply reachable_registry_injective|].
  intros Hid1 Hid2 Hne w1.
  set (a1 := (Setup c1 id1 clean1 (run tr init)).1.1.1).
  assert (run tr' w1 = run (tr ++ [OpSetup c1 id1 clean1] ++ tr') init)
    as Hreach.
  { by rewrite !run_app. }
  assert (sessions (backend (run tr' w1)) !! id1 = Some a1) as Hs1.
  { apply run_sessions_mono. by apply Setup_registers. }
  pose proof (reachable_registry_live
                (tr ++ [OpSetup c1 id1 clean1] ++ tr')) as Hlive.
  pose proof (reachable_registry_injective
                (tr ++ [OpSetup c1 id1 clean1] ++ tr')) as Hinj.
  rewrite <-Hreach in Hlive, Hinj.
  destruct (Setup_result c2 id2 clean2 (run tr' w1)) as [->|[id' Hs']].
  - specialize (Hlive id1 a1 Hs1). simpl in Hlive. lia.
  - intros Heq. rewrite <-Heq in Hs'.
    pose proof (Setup_registers c2 id2 clean2 (run tr' w1) Hid2) as Hs2.
    rewrite <-Heq in Hs2.
    pose proof (step_sessions_mono (run tr' w1) (OpSetup c2 id2 clean2)
                  id1 a1 Hs1) as Hs1'.
    pose proof (step_registry_injective (run tr' w1)
                  (OpSetup c2 id2 clean2) Hlive Hinj) as Hinj'.
    apply Hne. by apply (Hinj' id1 id2 a1).
Qed.

Lemma sessions_of_different_ids_differ_witness :
  (Setup 1 "a" false (run [] init)).1.1.1
  ≠ (Setup 2 "b" true
       (run [OpTerminate 1] (Setup 1 "a" false (run [] init)).2)).1.1.1.
Proof.
  refine (proj2 (sessions_of_different_ids_differ [] [OpTerminate 1]
                   1 2 "a" "b" false true) _ _ _); by vm_compute.
Defined.

(** X11: once Setup has been called for a non-empty id, every later Setup
    for that id, by whatever client and after whatever run, returns the
    same session, with resumed = true and a nil error. *)
Theorem Setup_same_id_same_session (client client' : Client) (id : string)
    (clean clean' : bool) (w : World) (tr : list op) :
  id ≠ "" →
  (Setup client' id clean' (run tr (Setup client id clean w).2)).1
  = ((Setup client id clean w).1.1.1, true, None).
Proof.
  intros Hid.
  rewrite (Setup_found _ _ _ _ (Setup client id clean w).1.1.1);
    [done|done|].
  apply run_sessions_mono. by apply Setup_registers.
Qed.

Lemma Setup_same_id_same_session_witness :
  (Setup 2 "a" true
     (run [OpTerminate 1; OpSetup 3 "b" false]
        (Setup 1 "a" false init).2)).1
  = ((Setup 1 "a" false init).1.1.1, true, None).
Proof.
  apply (Setup_same_id_same_session 1 2 "a" false true init
           [OpTerminate 1; OpSetup 3 "b" false]).
  by vm_compute.
Defined.

(** ** The replay of missed messages *)

(** The schedule in which the goroutine spawned by Setup runs before
    any other step: the connecting client is sent the messages the session
    had missed when Setup was called, or nothing when clean was true. *)
Lemma Setup_then_replay (client : Client) (id : string) (clean : bool)
    (w : World) (sess : addr) (s : MemorySession) :
  id ≠ "" →
  sessions (backend w) !! id = Some sess →
  heap w !! sess = Some s →
  let w' := run_goroutine (length (goroutines w))
                          (Setup client id clean w).2 in
  inbox client w'
  = inbox client w ++ (if clean then [] else missedQueue s)
  ∧ missedQueue <$> heap w' !! sess = Some []
  ∧ goroutines w' = goroutines w
  ∧ ¬ offline sess w'.
Proof.
  intros Hid Hs Hh w'. unfold w'. clear w'.
  rewrite (Setup_found _ _ _ _ sess) by done. cbn [snd].
  set (w1 := ctx_Set client "session" _ _).
  assert (goroutines w1 = goroutines w ++ [(client, sess)]) as Hg by done.
  assert (goroutines w1 !! length (goroutines w) = Some (client, sess))
    as Hgl.
  { rewrite Hg. by rewrite lookup_app_r, Nat.sub_diag. }
  assert (heap w1 !! sess
          = Some (let s1 := Session.set_currentClient (Some client) s in
                  if clean then Session.Reset s1 else s1)) as Hh1.
  { unfold w1. destruct clean; simpl;
      rewrite !list_lookup_alter_eq, Hh; done. }
  assert (inbox client w1 = inbox client w) as Hin.
  { unfold w1, inbox. simpl. rewrite omap_app.
    destruct (currentClient_at sess w); simpl; by rewrite app_nil_r. }
  unfold run_goroutine. rewrite Hgl, replay_unfold.
  cbn [heap set_goroutines]. rewrite Hh1. split_and!.
  - unfold inbox at 1. cbn [calls set_calls set_heap set_goroutines].
    rewrite omap_app. fold (inbox client w1). rewrite Hin. f_equal.
    destruct clean; [done|]. cbn [missedQueue Session.set_currentClient].
    generalize (missedQueue s). intros l.
    induction l as [|m l IH]; simpl; [done|].
    rewrite decide_True by done. f_equal. exact IH.
  - simpl. rewrite list_lookup_insert_eq by by eapply lookup_lt_Some.
    by destruct clean.
  - cbn [goroutines set_calls set_heap set_goroutines]. rewrite Hg.
    rewrite (delete_middle (goroutines w) []). by rewrite app_nil_r.
  - intros [flt Hin']. simpl in Hin'.
    apply elem_of_Clear in Hin' as [_ Hne]. by apply Hne.
Qed.

(** X12: whenever a goroutine spawned by Setup runs, it sends its client
    exactly the missed messages its session holds at that moment, in the
    order they were queued, and makes no other call; it leaves the session
    with no missed message and otherwise as it was, removes itself from
    the pending goroutines, and touches neither the backend, the offline
    queue included, nor another session, nor a context. *)
Theorem Setup_replays_missed (client : Client) (sess : addr) (i : nat)
    (s : MemorySession) (w : World) :
  goroutines w !! i = Some (client, sess) →
  heap w !! sess = Some s →
  let w' := run_goroutine i w in
  calls w' = calls w ++ (CallPublish client <$> missedQueue s)
  ∧ inbox client w' = inbox client w ++ missedQueue s
  ∧ (∀ c, c ≠ client → inbox c w' = inbox c w)
  ∧ heap w' !! sess = Some (Session.missed s).2
  ∧ missedQueue (Session.missed s).2 = []
  ∧ state_kept (Session.missed s).2 s
  ∧ (∀ b, b ≠ sess → heap w' !! b = heap w !! b)
  ∧ goroutines w' = delete i (goroutines w)
  ∧ backend w' = backend w
  ∧ contexts w' = contexts w.
Proof.
  intros Hg Hh w'. unfold w', run_goroutine. clear w'.
  rewrite Hg, replay_unfold. cbn [heap set_goroutines]. rewrite Hh.
  assert (∀ c, omap (λ e, match e with
                          | CallPublish c' msg =>
                              if decide (c' = c) then Some msg else None
                          | _ => None
                          end) (CallPublish client <$> missedQueue s)
               = if decide (client = c) then missedQueue s else []) as Hsent.
  { intros c. generalize (missedQueue s). intros l.
    destruct (decide (client = c)) as [Heq|Hne];
      induction l as [|m l IH]; simpl; try done.
    - rewrite decide_True by done. simpl. f_equal. exact IH.
    - rewrite decide_False by done. simpl. exact IH. }
  split_and!.
  - done.
  - unfold inbox. cbn [calls set_calls]. rewrite omap_app, Hsent.
    by rewrite decide_True.
  - intros c Hne. unfold inbox. cbn [calls set_calls].
    rewrite omap_app, Hsent, decide_False by done. by rewrite app_nil_r.
  - simpl. by rewrite list_lookup_insert_eq by by eapply lookup_lt_Some.
  - done.
  - repeat split. simpl. apply prefix_nil.
  - intros b Hne. simpl. by rewrite list_lookup_insert_ne.
  - done.
  - done.
  - done.
Qed.

Lemma Setup_replays_missed_witness :
  inbox 2 (run_goroutine 0
             (run [OpSetup 1 "a" false;
                   OpSaveSubscription 1 (mkSubscription "t" 1);
                   OpSubscribe 1 "t";
                   OpSetup 2 "a" false;
                   OpTerminate 1;
                   OpPublish 3 (mkMessage "t" ["m"%byte] 1 false)] init))
  = [mkMessage "t" ["m"%byte] 1 false].
Proof.
  destruct (Setup_replays_missed 2 0 0
              (mkMemorySession {["t" := 1%N]} [] [] 1%N
                 [mkMessage "t" ["m"%byte] 1 false] None)
              (run [OpSetup 1 "a" false;
                    OpSaveSubscription 1 (mkSubscription "t" 1);
                    OpSubscribe 1 "t";
                    OpSetup 2 "a" false;
                    OpTerminate 1;
                    OpPublish 3 (mkMessage "t" ["m"%byte] 1 false)] init))
    as (_ & H2 & _).
  - by vm_compute.
  - by vm_compute.
  - exact H2.
Defined.

(** ** What Setup writes and what it leaves alone *)

(** X15: Setup records in the context of the connecting client the
    clean flag and the session it returns, which is what Terminate reads
    later; the other keys of that context and the contexts of the other
    clients stay as they are. *)
Theorem Setup_context (client : Client) (id : string) (clean : bool)
    (w : World) :
  let w' := (Setup client id clean w).2 in
  bound_session client w' = Some (Setup client id clean w).1.1.1
  ∧ connected_clean client w' = Some clean
  ∧ (∀ k, k ≠ "session" → k ≠ "clean" →
          ctx_Get client k w' = ctx_Get client k w)
  ∧ (∀ c k, c ≠ client → ctx_Get c k w' = ctx_Get c k w).
Proof.
  intros w'. unfold w', bound_session, connected_clean.
  change (Setup client id clean w).2 with (step w (OpSetup client id clean)).
  split_and!.
  - rewrite step_ctx. by rewrite decide_True.
  - rewrite step_ctx. rewrite decide_False by (intros [_ ?]; done).
    by rewrite decide_True.
  - intros k Hk1 Hk2. rewrite step_ctx.
    by rewrite !(decide_False (P := client = client ∧ _)) by tauto.
  - intros c k Hne. rewrite step_ctx.
    by rewrite !(decide_False (P := client = c ∧ _)) by (intros [? _]; done).
Qed.

(** X16: Setup never touches the queue, the retained store or the
    Logins, sends no message to any client, and changes no session other
    than the one it returns; the only entries it removes from the offline
    queue are those of the session it returns, and it adds none. *)
Theorem Setup_frame (client : Client) (id : string) (clean : bool)
    (w : World) :
  let w' := (Setup client id clean w).2 in
  let sess := (Setup client id clean w).1.1.1 in
  queue (backend w') = queue (backend w)
  ∧ retained (backend w') = retained (backend w)
  ∧ Logins (backend w') = Logins (backend w)
  ∧ (∀ c, inbox c w' = inbox c w)
  ∧ (∀ b s, b ≠ sess → heap w !! b = Some s → heap w' !! b = Some s)
  ∧ (∀ e, e ∈ offlineQueue (backend w') → e ∈ offlineQueue (backend w))
  ∧ (∀ e, e ∈ offlineQueue (backend w) → e.2 ≠ ISession sess →
          e ∈ offlineQueue (backend w')).
Proof.
  intros w' sess. unfold w', sess. clear w' sess.
  Setup_cases id w Hid Hs; cbn [fst snd].
  - split_and!; try done.
    intros b s _ Hb. simpl. by rewrite lookup_app_l by by eapply lookup_lt_Some.
  - split_and!; try done.
    + intros c. unfold inbox. simpl. rewrite omap_app.
      destruct (currentClient_at sess w); simpl; by rewrite app_nil_r.
    + intros b s Hne Hb. destruct clean; simpl;
        by rewrite !list_lookup_alter_ne.
    + intros e [? ?]%elem_of_Clear. done.
    + intros e He Hne. simpl. by apply elem_of_Clear.
  - split_and!; try done.
    intros b s _ Hb. simpl. by rewrite lookup_app_l by by eapply lookup_lt_Some.
Qed.

(** ** The order of delivery *)

Lemma run_publishes_cons p msg l w :
  run (publishes ((p, msg) :: l)) w = run (publishes l) (Publish p msg w).2.
Proof. done. Qed.

(** X17: a run of Publish calls delivers in publish order.  The messages
    a client is sent are, in the order of the calls, each message once per
    subscription of the client that matches its topic, after everything the
    client was sent before; and the missed messages of a session are
    extended in the same way, by each message once per offline subscription
    of the session that matches its topic.  The queue and the offline
    queue are those of the start throughout. *)
Theorem Publish_order (l : list (Client * Message)) (w : World) :
  (∀ c, inbox c (run (publishes l) w)
        = inbox c w
          ++ concat ((λ pm, replicate
                              (client_occurrences c
                                 (Tree.Match (Topic pm.2) (queue (backend w))))
                              pm.2) <$> l))
  ∧ (∀ a s, heap w !! a = Some s →
       missedQueue <$> heap (run (publishes l) w) !! a
       = Some (missedQueue s
               ++ concat ((λ pm, replicate
                                   (occurrences a
                                      (Tree.Match (Topic pm.2)
                                         (offlineQueue (backend w))))
                                   pm.2) <$> l)))
  ∧ queue (backend (run (publishes l) w)) = queue (backend w)
  ∧ offlineQueue (backend (run (publishes l) w)) = offlineQueue (backend w).
Proof.
  revert w. induction l as [|[p msg] l IH]; intros w.
  - split_and!; try done.
    + intros c. simpl. by rewrite app_nil_r.
    + intros a s Hs. simpl. rewrite app_nil_r. unfold run. simpl.
      by rewrite Hs.
  - rewrite run_publishes_cons.
    destruct (IH (Publish p msg w).2) as (Hin & Hmiss & Hq & Ho).
    destruct (Publish_frame p msg w) as (Hq1 & Ho1 & _).
    rewrite Hq1 in Hin, Hq. rewrite Ho1 in Hmiss, Ho.
    split_and!; try done.
    + intros c. rewrite Hin, Publish_inbox, fmap_cons. simpl.
      by rewrite <-app_assoc.
    + intros a s Hs.
      rewrite (Hmiss a (queued msg (occurrences a
                 (Tree.Match (Topic msg) (offlineQueue (backend w)))) s)).
      * destruct (queued_fields msg (occurrences a
                   (Tree.Match (Topic msg) (offlineQueue (backend w)))) s)
          as (_ & _ & _ & _ & _ & ->).
        rewrite fmap_cons. simpl. by rewrite <-app_assoc.
      * by rewrite Publish_heap_lookup, Hs.
Qed.

(** ** How long an offline subscription lasts *)

(** An entry of the offline queue is removed in one way only: a Setup that
    finds the session of the entry stored under its id. *)
Lemma step_offlineQueue_kept w o e a :
  e ∈ offlineQueue (backend w) → e.2 = ISession a →
  e ∈ offlineQueue (backend (step w o))
  ∨ ∃ c id clean, o = OpSetup c id clean
                  ∧ sessions (backend w) !! id = Some a.
Proof.
  intros He Ha.
  destruct o as [c id clean|c t|c t|c msg|c|i|c sub|c flt]; cbn [step].
  - Setup_cases id w Hid Hs; cbn [snd]; try (by left).
    destruct (decide (sess = a)) as [->|Hne].
    + right. by exists c, id, clean.
    + left. simpl. apply elem_of_Clear. split; [done|].
      rewrite Ha. congruence.
  - by left.
  - by left.
  - left. by destruct (Publish_frame c msg w) as (_ & -> & _).
  - left. rewrite Terminate_offlineQueue.
    destruct (bound_session c w) as [b|]; [|done].
    destruct (connected_clean c w) as [[]|]; try done;
      apply terminate_loop_elem; by left.
  - left. by rewrite run_goroutine_backend.
  - left. by rewrite on_bound_session_backend.
  - left. by rewrite on_bound_session_backend.
Qed.

(** X18: an entry of the offline queue lasts until the id of its session
    connects again: along every run that contains no Setup for that id the
    entry stays, whatever else is called.  The entry of a session that is
    stored under no id, as the session of a client that connected with an
    empty id is, stays along every run. *)
Theorem offline_entry_lasts (w : World) (e : string * iface) (a : addr)
    (tr : list op) :
  registry_live w → registry_injective w →
  e ∈ offlineQueue (backend w) → e.2 = ISession a →
  (∀ id, sessions (backend w) !! id = Some a →
         (∀ c clean, OpSetup c id clean ∉ tr) →
         e ∈ offlineQueue (backend (run tr w)))
  ∧ (a < length (heap w) →
     (∀ id, sessions (backend w) !! id ≠ Some a) →
     e ∈ offlineQueue (backend (run tr w))).
Proof.
  intros Hlive Hinj He Ha. split.
  - intros id Hs Hno. revert w Hlive Hinj He Hs.
    induction tr as [|o tr IH]; intros w Hlive Hinj He Hs; [done|].
    simpl. apply IH.
    + intros c clean Hin. apply (Hno c clean). by right.
    + by apply step_registry_live.
    + by apply step_registry_injective.
    + destruct (step_offlineQueue_kept w o e a He Ha)
        as [?|(c & id' & clean & -> & Hs')]; [done|].
      rewrite (Hinj id' id a Hs' Hs) in Hno.
      exfalso. apply (Hno c clean). by left.
    + by apply step_sessions_mono.
  - intros Hlt Hun. clear Hlive Hinj. revert w He Hlt Hun.
    induction tr as [|o tr IH]; intros w He Hlt Hun; [done|].
    simpl. apply IH.
    + destruct (step_offlineQueue_kept w o e a He Ha)
        as [?|(c & id' & clean & -> & Hs')]; [done|].
      by apply Hun in Hs'.
    + pose proof (step_heap_length w o). lia.
    + by apply step_unregistered.
Qed.

Lemma offline_entry_lasts_witness :
  ("t", ISession 0)
  ∈ offlineQueue
      (backend
         (run [OpPublish 2 (mkMessage "t" [] 1 false); OpSetup 3 "b" true;
               OpTerminate 3]
              (run offline_run init))).
Proof.
  destruct (offline_entry_lasts (run offline_run init) ("t", ISession 0) 0
              [OpPublish 2 (mkMessage "t" [] 1 false); OpSetup 3 "b" true;
               OpTerminate 3]) as [H1 _].
  - apply (bool_decide_unpack _). by vm_compute.
  - apply reachable_registry_injective.
  - apply (bool_decide_unpack _). by vm_compute.
  - done.
  - apply (H1 "a").
    + by vm_compute.
    + intros c clean Hin.
      repeat (apply elem_of_cons in Hin as [Hin|Hin]; [discriminate Hin|]).
      by apply elem_of_nil in Hin.
Defined.
